(** * magmatic.pool: the node pool of the Lavalink client

    A shallow embedding of [magmatic/pool.py] (class [NodePool], the
    process-wide [DefaultNodePool] and the module-level shortcuts) and of
    the exception classes of [magmatic/errors.py] that it raises.

    Python objects that are mutated and shared (the nodes and their
    players) live in an explicit heap, keyed by object identity; the
    pool's [_nodes] dict is an association list in insertion order, which
    is the order [dict.values()] iterates in. *)

From stdpp Require Import gmap strings list sorting.
From Stdlib Require Import ZArith Lia.

Open Scope Z_scope.

(** ** Python building blocks *)

(** [dict] with insertion order: assigning to a key that is present
    replaces the value where it stands, a new key goes to the end. *)
Module PyDict.
Section dict.
Context {K V : Type} `{EqDecision K}.

Definition t := list (K * V).

(** [d[k]], [None] standing for [KeyError]. *)
Fixpoint get (k : K) (d : t) : option V :=
  match d with
  | [] => None
  | (k', v) :: d' => if decide (k = k') then Some v else get k d'
  end.

(** [k in d] *)
Definition contains (k : K) (d : t) : bool :=
  match get k d with Some _ => true | None => false end.

(** [d[k] = v] *)
Fixpoint set (k : K) (v : V) (d : t) : t :=
  match d with
  | [] => [(k, v)]
  | (k', v') :: d' =>
      if decide (k = k') then (k', v) :: d' else (k', v') :: set k v d'
  end.

(** [d.values()] *)
Definition values (d : t) : list V := snd <$> d.

(** [d.keys()] *)
Definition keys (d : t) : list K := fst <$> d.

(** [not d] *)
Definition is_empty (d : t) : bool :=
  match d with [] => true | _ :: _ => false end.

(** [d.clear()] *)
Definition clear (d : t) : t := [].
End dict.
Arguments t : clear implicits.
End PyDict.

(** [sorted(xs, key=key)]: Python's sort is stable, so the result is the
    one a stable insertion sort gives. *)
Section sorted.
Context {A : Type} (key : A → Z).

Fixpoint insert_by (x : A) (l : list A) : list A :=
  match l with
  | [] => [x]
  | y :: l' => if decide (key x ≤ key y) then x :: y :: l' else y :: insert_by x l'
  end.

Definition sorted (l : list A) : list A := foldr insert_by [] l.
End sorted.

(** [s or t] on strings: the empty string is falsy. *)
Definition str_or (s t : string) : string :=
  match s with EmptyString => t | String _ _ => s end.

(** ** errors.py *)

(** The exception classes.  The [pool] attribute of [NodeConflict],
    [NoAvailableNodes] and [NoMatches] is always the pool that raises and
    is left out; a node is named by its object identity.  [NodeConflict]
    is annotated [identifier: str] but [create_node] tests the identifier
    as it is, [None] included, so it carries an optional string.
    [NameError] is Python's own, raised when a name that is not bound is
    evaluated; [Foreign] stands for what a node's transports raise. *)
Inductive exn : Type :=
  | HTTPException (status : Z)
  | ConnectionFailure (node : nat) (error : string)
  | HandshakeFailure
  | AuthorizationFailure (node : nat)
  | NodeConflict (identifier : option string)
  | NoAvailableNodes
  | NoMatches (identifier : option string) (region : option string)
  | PlayerNotFound (node : nat) (guild : Z)
  | NameError (name : string)
  | Foreign (what : string).

#[global] Instance exn_eq_dec : EqDecision exn.
Proof. solve_decision. Defined.

(** The messages that [NodeConflict], [NoAvailableNodes] and [NoMatches]
    hand to [Exception.__init__] (errors.py l.96, 111, 132-139).  [repr]
    of a string is Python's and is left open; [repr(None)] is [None]. *)
Section messages.
Variable repr : string → string.

Definition repr_optional (x : option string) : string :=
  match x with
  | Some v => repr v
  | None => "None"
  end.

Definition NodeConflict_message (identifier : option string) : string :=
  "Node identifier " +:+ repr_optional identifier +:+ " is already in use.".

Definition NoAvailableNodes_message : string :=
  "No available nodes on this pool.".

(** The list [entities] of [NoMatches.__init__]. *)
Definition NoMatches_entities (identifier region : option string) : list string :=
  match identifier with
  | Some i => ["identifier " +:+ repr i]
  | None => []
  end ++
  match region with
  | Some r => ["voice region " +:+ repr r]
  | None => []
  end.

Definition NoMatches_message (identifier region : option string) : string :=
  "No node with " +:+ String.concat " and " (NoMatches_entities identifier region)
    +:+ " could be found in this pool.".
End messages.

(** Result of a call: a value or a raised exception. *)
Inductive result (A : Type) : Type :=
  | Ok (a : A)
  | Raise (e : exn).
Arguments Ok {A} a.
Arguments Raise {A} e.

(** State and exceptions: a raise keeps the mutations made before it. *)
Definition M (S A : Type) : Type := S → result A * S.

Definition ret {S A} (a : A) : M S A := λ s, (Ok a, s).
Definition raise {S A} (e : exn) : M S A := λ s, (Raise e, s).
Definition bind {S A B} (m : M S A) (k : A → M S B) : M S B :=
  λ s, match m s with
       | (Ok a, s') => k a s'
       | (Raise e, s') => (Raise e, s')
       end.
Definition gets {S A} (f : S → A) : M S A := λ s, (Ok (f s), s).
Definition modify {S} (f : S → S) : M S unit := λ s, (Ok tt, f s).

Notation "x <-- m ; k" := (bind m (λ x, k))
  (at level 20, m at level 100, k at level 200, only parsing).

(** ** Nodes and players *)

(** [port: Union[int, str]] *)
Inductive port_t : Type :=
  | PortInt (n : Z)
  | PortStr (s : string).

#[global] Instance port_eq_dec : EqDecision port_t.
Proof. solve_decision. Defined.

(** The keyword arguments of [create_node] and [start_node], which are
    those of the [Node] constructor.  The bot, the aiohttp session, the
    event loop and the serializer are opaque handles. *)
Record NodeArgs : Type := {
  kw_bot : nat;
  kw_host : string;
  kw_port : port_t;
  kw_password : option string;
  kw_region : option string;
  kw_identifier : option string;
  kw_session : option nat;
  kw_loop : option nat;
  kw_prefer_http : bool;
  kw_secure : bool;
  kw_serializer : nat
}.

(** The handle of the standard [json] module. *)
Definition json : nat := 0%nat.

(** The defaults of the signature:
    [host='127.0.0.1', port=2333, password=None, ..., serializer=json]. *)
Definition kwargs (bot : nat) : NodeArgs :=
  {| kw_bot := bot; kw_host := "127.0.0.1"; kw_port := PortInt 2333;
     kw_password := None; kw_region := None; kw_identifier := None;
     kw_session := None; kw_loop := None; kw_prefer_http := false;
     kw_secure := false; kw_serializer := json |}.

Definition with_identifier (identifier : option string) (kw : NodeArgs) : NodeArgs :=
  {| kw_bot := kw_bot kw; kw_host := kw_host kw; kw_port := kw_port kw;
     kw_password := kw_password kw; kw_region := kw_region kw;
     kw_identifier := identifier; kw_session := kw_session kw;
     kw_loop := kw_loop kw; kw_prefer_http := kw_prefer_http kw;
     kw_secure := kw_secure kw; kw_serializer := kw_serializer kw |}.

(** A [Node] object: its identity and the attributes fixed by its
    constructor.  What a node mutates is in the heap, under [node_id]. *)
Record Node : Type := {
  node_id : nat;
  Node_identifier : string;
  Node_region : option string;
  Node_args : NodeArgs
}.

#[global] Instance NodeArgs_eq_dec : EqDecision NodeArgs.
Proof. solve_decision. Defined.
#[global] Instance Node_eq_dec : EqDecision Node.
Proof. solve_decision. Defined.

(** A [Player] object: its identity, the node that owns it and its guild. *)
Record Player : Type := {
  player_id : nat;
  player_node : nat;
  player_guild : Z
}.

#[global] Instance Player_eq_dec : EqDecision Player.
Proof. solve_decision. Defined.

Inductive lifecycle : Type :=
  | Unstarted | Connecting | Handshaking | Ready | Reconnecting | Closed.

(** The mutable part of a node: its players by guild id, the player count
    last reported by the server (if any) and its connection state. *)
Record NodeState : Type := {
  players : gmap Z Player;
  stats_players : option Z;
  state : lifecycle
}.

Definition fresh_node : NodeState :=
  {| players := ∅; stats_players := None; state := Unstarted |}.

(** Calls made on nodes, in order. *)
Inductive event : Type :=
  | EvStart (node : nat)
  | EvDestroy (node : nat).

(** The objects outside the pool.  A node that never changed has no
    entry in [node_states] and is in its [fresh_node] state. *)
Record Heap : Type := {
  node_states : gmap nat NodeState;
  next_node : nat;
  next_player : nat;
  trace : list event
}.

Definition node_state (h : Heap) (n : Node) : NodeState :=
  default fresh_node (node_states h !! node_id n).

Definition set_node_state (n : Node) (ns : NodeState) (h : Heap) : Heap :=
  {| node_states := <[node_id n := ns]> (node_states h);
     next_node := next_node h; next_player := next_player h;
     trace := trace h |}.

Definition log (e : event) (h : Heap) : Heap :=
  {| node_states := node_states h; next_node := next_node h;
     next_player := next_player h; trace := trace h ++ [e] |}.

(** What the pool cannot decide about a node: the identifier the
    constructor draws when none is given, and whether opening or closing
    the node's transports raises. *)
Class NodeBackend : Type := {
  random_identifier : nat → string;
  start_fault : Node → option exn;
  destroy_fault : Node → option exn
}.

(** Modelled from the spec: the methods and properties of [Node] that
    the pool uses; node.py is not part of the sources. *)
Module NodeModel.
Section node.
Context {backend : NodeBackend}.

(** Modelled from the spec: the [Node] constructor, which builds an
    unstarted node.  [create_node]'s docstring has it that a random
    identifier is generated when [identifier] is left blank. *)
Definition new (kw : NodeArgs) : M Heap Node := λ h,
  let n := {| node_id := next_node h;
              Node_identifier := match kw_identifier kw with
                                 | Some i => i
                                 | None => random_identifier (next_node h)
                                 end;
              Node_region := kw_region kw;
              Node_args := kw |} in
  (Ok n, {| node_states := node_states h; next_node := S (next_node h);
            next_player := next_player h; trace := trace h |}).

(** Modelled from the spec: [Node.player_count], the load metric
    (reported by the server or, absent that, the count of owned
    players). *)
Definition player_count (h : Heap) (n : Node) : Z :=
  match stats_players (node_state h n) with
  | Some c => c
  | None => Z.of_nat (size (players (node_state h n)))
  end.

(** Modelled from the spec: [Node.get_player(guild, fail_if_not_exists)]
    returns the existing player or, unless [fail_if_not_exists], lazily
    creates one owned by this node; with [fail_if_not_exists] and no
    existing player it raises [PlayerNotFound]. *)
Definition get_player (n : Node) (guild : Z) (fail_if_not_exists : bool)
  : M Heap Player := λ h,
  match players (node_state h n) !! guild with
  | Some p => (Ok p, h)
  | None =>
      if fail_if_not_exists then (Raise (PlayerNotFound (node_id n) guild), h)
      else
        let p := {| player_id := next_player h; player_node := node_id n;
                    player_guild := guild |} in
        let ns := node_state h n in
        (Ok p,
         {| node_states :=
              <[node_id n := {| players := <[guild := p]> (players ns);
                                stats_players := stats_players ns;
                                state := state ns |}]> (node_states h);
            next_node := next_node h; next_player := S (next_player h);
            trace := trace h |})
  end.

(** Modelled from the spec: [Node.start()] opens the transports; a
    failure is raised to the caller, otherwise the node is ready. *)
Definition start (n : Node) : M Heap unit := λ h,
  let h := log (EvStart (node_id n)) h in
  match start_fault n with
  | Some e => (Raise e, h)
  | None =>
      let ns := node_state h n in
      (Ok tt, set_node_state n {| players := players ns;
                                  stats_players := stats_players ns;
                                  state := Ready |} h)
  end.

(** Modelled from the spec: [Node.destroy()] closes the transport
    handles and tears down every owned player. *)
Definition destroy (n : Node) : M Heap unit := λ h,
  let h := log (EvDestroy (node_id n)) h in
  match destroy_fault n with
  | Some e => (Raise e, h)
  | None =>
      let ns := node_state h n in
      (Ok tt, set_node_state n {| players := ∅;
                                  stats_players := stats_players ns;
                                  state := Closed |} h)
  end.
End node.
End NodeModel.

(** ** class NodePool *)

(** A pool object: [self._nodes].  Keys are annotated [str]; the key
    that [create_node] tests and assigns may be [None]. *)
Record NodePool : Type := {
  _nodes : PyDict.t (option string) Node
}.

(** What a method of a pool sees: the pool and the heap. *)
Record State : Type := {
  self : NodePool;
  heap : Heap
}.

Definition on_heap {A} (m : M Heap A) : M State A := λ s,
  let '(r, h) := m (heap s) in (r, {| self := self s; heap := h |}).

Definition on_nodes (f : PyDict.t (option string) Node → PyDict.t (option string) Node)
  : M State unit :=
  modify (λ s, {| self := {| _nodes := f (_nodes (self s)) |}; heap := heap s |}).

(** ** The names of pool.py at run time *)

(** [typing.TYPE_CHECKING]: [False] whenever the program runs. *)
Definition TYPE_CHECKING : bool := false.

Section names.
Context {backend : NodeBackend}.

(** The global name [Node].  Its import (l.12-17) stands under
    [if TYPE_CHECKING:], and [from __future__ import annotations] only
    spares the annotations: at run time the name is not bound. *)
Definition global_Node : option (NodeArgs → M Heap Node) :=
  if TYPE_CHECKING then Some NodeModel.new else None.

(** The call [Node(...)] of l.149: the name is looked up first, and
    [NameError] is raised when it is not bound. *)
Definition call_Node (kw : NodeArgs) : M State Node :=
  match global_Node with
  | Some init => on_heap (init kw)
  | None => raise (NameError "Node")
  end.
End names.

Module Pool.
Section pool.
Context {backend : NodeBackend}.

(** [NodePool()] *)
Definition init : NodePool := {| _nodes := [] |}.

(** [walk_nodes] (l.46-54): the values of [_nodes], in insertion order. *)
Definition walk_nodes : M State (list Node) :=
  gets (λ s, PyDict.values (_nodes (self s))).

(** The [nodes] property (l.41-44): [list(self.walk_nodes())]. *)
Definition nodes : M State (list Node) := walk_nodes.

(** [__len__] (l.337-338) *)
Definition len : M State nat := gets (λ s, length (_nodes (self s))).

(** [add_node] (l.56-73).  The test is on [identifier], the assignment
    on [identifier or node.identifier]. *)
Definition add_node (node : Node) (identifier : option string) : M State unit :=
  let identifier :=
    match identifier with
    | None => Node_identifier node
    | Some i => i
    end in
  present <-- gets (λ s, PyDict.contains (Some identifier) (_nodes (self s)));
  if (present : bool) then raise (NodeConflict (Some identifier))
  else
    on_nodes (PyDict.set (Some (str_or identifier (Node_identifier node))) node).

(** [create_node] (l.75-163).  The conflict test comes before the call
    of [Node]; the assignment of l.162 comes after it. *)
Definition create_node (kw : NodeArgs) : M State Node :=
  empty <-- gets (λ s, PyDict.is_empty (_nodes (self s)));
  let identifier :=
    match kw_identifier kw with
    | None => if (empty : bool) then Some "MAIN"%string else None
    | Some i => Some i
    end in
  present <-- gets (λ s, PyDict.contains identifier (_nodes (self s)));
  if (present : bool) then raise (NodeConflict identifier)
  else
    node <-- call_Node (with_identifier identifier kw);
    _ <-- on_nodes (PyDict.set identifier node);
    ret node.

(** [start_node] (l.165-249), awaited to its end. *)
Definition start_node (kw : NodeArgs) : M State Node :=
  node <-- create_node kw;
  _ <-- on_heap (NodeModel.start node);
  ret node.

(** [get_node] (l.251-290).  The emptiness test comes first; [KeyError]
    and [IndexError] become [NoMatches]. *)
Definition get_node (identifier : option string) (region : option string)
  : M State Node :=
  empty <-- gets (λ s, PyDict.is_empty (_nodes (self s)));
  if (empty : bool) then raise NoAvailableNodes
  else
    match identifier with
    | Some i =>
        found <-- gets (λ s, PyDict.get (Some i) (_nodes (self s)));
        match found with
        | Some node => ret node
        | None => raise (NoMatches identifier region)
        end
    | None =>
        all <-- walk_nodes;
        let nodes :=
          match region with
          | Some r => filter (λ node, Node_region node = Some r) all
          | None => all
          end in
        h <-- gets heap;
        match sorted (NodeModel.player_count h) nodes with
        | node :: _ => ret node
        | [] => raise (NoMatches identifier region)
        end
    end.

(** The loop of [get_player]: the first node that has a player for the
    guild answers; [PlayerNotFound] moves on to the next node. *)
Fixpoint find_player (guild : Z) (nodes : list Node) : M State (option Player) :=
  match nodes with
  | [] => ret None
  | node :: rest => λ s,
      match on_heap (NodeModel.get_player node guild true) s with
      | (Ok p, s') => (Ok (Some p), s')
      | (Raise (PlayerNotFound _ _), s') => find_player guild rest s'
      | (Raise e, s') => (Raise e, s')
      end
  end.

(** [get_player] (l.292-323); the guild is given by its id. *)
Definition get_player (guild : Z) (node : option Node) : M State Player :=
  match node with
  | Some node => on_heap (NodeModel.get_player node guild false)
  | None =>
      all <-- walk_nodes;
      found <-- find_player guild all;
      match found with
      | Some p => ret p
      | None =>
          node <-- get_node None None;
          on_heap (NodeModel.get_player node guild false)
      end
  end.

(** The loop of [destroy]. *)
Fixpoint destroy_each (nodes : list Node) : M State unit :=
  match nodes with
  | [] => ret tt
  | node :: rest => _ <-- on_heap (NodeModel.destroy node); destroy_each rest
  end.

(** [destroy] (l.325-335), awaited to its end with no other task
    running in between. *)
Definition destroy : M State unit :=
  all <-- walk_nodes;
  _ <-- destroy_each all;
  on_nodes PyDict.clear.
End pool.
End Pool.

(** ** The module level: DefaultNodePool and its shortcuts *)

(** The module's global [DefaultNodePool], next to the heap. *)
Record Module : Type := {
  DefaultNodePool : NodePool;
  objects : Heap
}.

(** Importing the module runs [DefaultNodePool = NodePool()]. *)
Definition import (h : Heap) : Module :=
  {| DefaultNodePool := Pool.init; objects := h |}.

(** A method call on the object bound to [DefaultNodePool]. *)
Definition on_default {A} (method : M State A) : M Module A := λ g,
  let '(r, s) := method {| self := DefaultNodePool g; heap := objects g |} in
  (r, {| DefaultNodePool := self s; objects := heap s |}).

Section shortcuts.
Context {backend : NodeBackend}.

Definition create_node (kw : NodeArgs) : M Module Node :=
  on_default
    (Pool.create_node
       {| kw_bot := kw_bot kw; kw_host := kw_host kw; kw_port := kw_port kw;
          kw_password := kw_password kw; kw_region := kw_region kw;
          kw_identifier := kw_identifier kw; kw_session := kw_session kw;
          kw_loop := kw_loop kw; kw_prefer_http := kw_prefer_http kw;
          kw_secure := kw_secure kw; kw_serializer := kw_serializer kw |}).

(** Not a coroutine function itself: it hands out the coroutine of the
    method, which the caller awaits. *)
Definition start_node (kw : NodeArgs) : M Module Node :=
  on_default
    (Pool.start_node
       {| kw_bot := kw_bot kw; kw_host := kw_host kw; kw_port := kw_port kw;
          kw_password := kw_password kw; kw_region := kw_region kw;
          kw_identifier := kw_identifier kw; kw_session := kw_session kw;
          kw_loop := kw_loop kw; kw_prefer_http := kw_prefer_http kw;
          kw_secure := kw_secure kw; kw_serializer := kw_serializer kw |}).

(** No [return]: the value of the call is dropped and [None] returned. *)
Definition add_node (node : Node) (identifier : option string) : M Module unit :=
  _ <-- on_default (Pool.add_node node identifier);
  ret tt.

Definition get_node (identifier : option string) (region : option string)
  : M Module Node :=
  on_default (Pool.get_node identifier region).

Definition get_player (guild : Z) (node : option Node) : M Module Player :=
  on_default (Pool.get_player guild node).
End shortcuts.

(** ** Derived notions used in the statements *)

(** The nodes that [get_node] ranks when no identifier is given. *)
Definition candidates (region : option string) (s : State) : list Node :=
  match region with
  | Some r => filter (λ node, Node_region node = Some r)
                     (PyDict.values (_nodes (self s)))
  | None => PyDict.values (_nodes (self s))
  end.

(** The key [create_node] tests and would register under: the
    identifier given, ['MAIN'] when none is given and the pool is empty,
    and [None] otherwise. *)
Definition default_identifier (kw : NodeArgs) (s : State) : option string :=
  match kw_identifier kw with
  | None => if PyDict.is_empty (_nodes (self s)) then Some "MAIN"%string else None
  | Some i => Some i
  end.

(** A node that has been torn down. *)
Definition torn_down (h : Heap) (n : Node) : Prop :=
  state (node_state h n) = Closed.

(** The [destroy] calls on the given nodes, as they appear in the trace. *)
Definition destroy_calls (nodes : list Node) : list event :=
  (λ n, EvDestroy (node_id n)) <$> nodes.

(** What the loop of [get_player] finds: the player of the first node, in
    the given order, that has one for the guild. *)
Fixpoint lookup_player (h : Heap) (guild : Z) (nodes : list Node) : option Player :=
  match nodes with
  | [] => None
  | n :: rest =>
      match players (node_state h n) !! guild with
      | Some p => Some p
      | None => lookup_player h guild rest
      end
  end.

(** A shortcut of the module does what the method does on
    [DefaultNodePool]: same value or exception, same pool and heap
    afterwards. *)
Definition same_as_method {A} (shortcut : M Module A) (method : M State A) : Prop :=
  ∀ g : Module,
    shortcut g =
      (let '(r, s') := method {| self := DefaultNodePool g; heap := objects g |} in
       (r, {| DefaultNodePool := self s'; objects := heap s' |})).

(** A call on a pool other than [destroy]. *)
Inductive call : Type :=
  | CallAddNode (node : Node) (identifier : option string)
  | CallCreateNode (kw : NodeArgs)
  | CallStartNode (kw : NodeArgs)
  | CallGetNode (identifier region : option string)
  | CallGetPlayer (guild : Z) (node : option Node).

Section calls.
Context {backend : NodeBackend}.

(** The state a call leaves, whether it returned or raised. *)
Definition after_call (c : call) (s : State) : State :=
  match c with
  | CallAddNode node identifier => snd (Pool.add_node node identifier s)
  | CallCreateNode kw => snd (Pool.create_node kw s)
  | CallStartNode kw => snd (Pool.start_node kw s)
  | CallGetNode identifier region => snd (Pool.get_node identifier region s)
  | CallGetPlayer guild node => snd (Pool.get_player guild node s)
  end.

(** The state a sequence of calls leaves, made one after the other. *)
Definition after_calls (cs : list call) (s : State) : State :=
  foldl (λ s c, after_call c s) s cs.
End calls.

(** ** Sample pools *)

(** A backend whose transports never fail. *)
Definition reliable : NodeBackend :=
  {| random_identifier := λ _, "f3a9c1"%string;
     start_fault := λ _, None;
     destroy_fault := λ _, None |}.

(** A backend on which closing the node with identity [bad] raises. *)
Definition closing_fails (bad : nat) : NodeBackend :=
  {| random_identifier := λ _, "f3a9c1"%string;
     start_fault := λ _, None;
     destroy_fault := λ n,
       if decide (node_id n = bad) then Some (Foreign "close") else None |}.

(** Three nodes have been built, and none of them used yet. *)
Definition idle_heap : Heap :=
  {| node_states := ∅; next_node := 3; next_player := 0; trace := [] |}.

(** A node built with the default arguments. *)
Definition node_at (id : nat) (name : string) (reg : option string) : Node :=
  {| node_id := id; Node_identifier := name; Node_region := reg;
     Node_args := with_identifier (Some name) (kwargs 7%nat) |}.

Definition node_a : Node := node_at 0 "A" (Some "eu").
Definition node_b : Node := node_at 1 "B" (Some "us").
Definition node_a' : Node := node_at 2 "A" None.

Definition pool_of (d : PyDict.t (option string) Node) (h : Heap) : State :=
  {| self := {| _nodes := d |}; heap := h |}.

Definition empty_pool : State := pool_of [] idle_heap.
Definition pool_a : State := pool_of [(Some "A"%string, node_a)] idle_heap.
Definition pool_ab : State :=
  pool_of [(Some "A"%string, node_a); (Some "B"%string, node_b)] idle_heap.

(** [pool_ab] after [destroy] with a node whose [destroy] raises: the
    call on the first node is the only one made. *)
Definition pool_ab_stuck : State :=
  pool_of [(Some "A"%string, node_a); (Some "B"%string, node_b)]
    {| node_states := ∅; next_node := 3; next_player := 0;
       trace := [EvDestroy 0] |}.

(** [pool_ab] after a [destroy] that went through. *)
Definition pool_ab_destroyed : State :=
  pool_of []
    {| node_states :=
         {[ 0%nat := {| players := ∅; stats_players := None; state := Closed |};
            1%nat := {| players := ∅; stats_players := None; state := Closed |} ]};
       next_node := 3; next_player := 0;
       trace := [EvDestroy 0; EvDestroy 1] |}.

(** [node_a] holds two players, [node_b] and [node_a'] none. *)
Definition busy_heap : Heap :=
  {| node_states :=
       {[ 0%nat := {| players :=
                        {[ 10 := {| player_id := 0; player_node := 0; player_guild := 10 |};
                           11 := {| player_id := 1; player_node := 0; player_guild := 11 |} ]};
                      stats_players := None; state := Ready |} ]};
     next_node := 3; next_player := 2; trace := [] |}.

Definition pool_busy : State :=
  pool_of [(Some "A"%string, node_a); (Some "B"%string, node_b);
           (Some "C"%string, node_a')] busy_heap.

(** * Properties *)

(** ** Facts on dicts *)
Module PyDictFacts.
Section facts.
Context {K V : Type} `{EqDecision K}.
Implicit Types (k : K) (v : V) (d : PyDict.t K V).

Lemma get_set_eq k v d : PyDict.get k (PyDict.set k v d) = Some v.
Proof.
  induction d as [|[k' v'] d IH]; simpl.
  - by rewrite decide_True.
  - destruct (decide (k = k')) as [->|Hne]; simpl.
    + by rewrite decide_True.
    + by rewrite decide_False.
Qed.

Lemma get_set_ne k k' v d :
  k ≠ k' → PyDict.get k' (PyDict.set k v d) = PyDict.get k' d.
Proof.
  intros Hne. induction d as [|[k0 v0] d IH]; simpl.
  - rewrite decide_False; [done | congruence].
  - destruct (decide (k = k0)) as [->|Hk]; simpl.
    + rewrite !decide_False; [done | congruence ..].
    + destruct (decide (k' = k0)); [done | apply IH].
Qed.

Lemma set_fresh k v d :
  PyDict.get k d = None → PyDict.set k v d = d ++ [(k, v)].
Proof.
  induction d as [|[k' v'] d IH]; simpl; [done |].
  destruct (decide (k = k')); [done |].
  intros Hd. by rewrite IH.
Qed.

Lemma contains_false k d :
  PyDict.contains k d = false ↔ PyDict.get k d = None.
Proof. unfold PyDict.contains. destruct (PyDict.get k d); naive_solver. Qed.

Lemma contains_true k d :
  PyDict.contains k d = true ↔ is_Some (PyDict.get k d).
Proof.
  unfold PyDict.contains. destruct (PyDict.get k d) as [v|].
  - split; [by eexists | done].
  - split; [done | by intros [v Hv]].
Qed.

Lemma get_Some_elem k v d : PyDict.get k d = Some v → (k, v) ∈ d.
Proof.
  induction d as [|[k' v'] d IH]; simpl; [done |].
  destruct (decide (k = k')) as [->|Hne].
  - intros [= ->]. by left.
  - intros Hg. right. by apply IH.
Qed.

Lemma get_Some_value k v d : PyDict.get k d = Some v → v ∈ PyDict.values d.
Proof.
  intros Hg. unfold PyDict.values.
  apply (list_elem_of_fmap_2 snd _ (k, v)). by apply get_Some_elem.
Qed.

Lemma get_None_keys k d : PyDict.get k d = None ↔ k ∉ PyDict.keys d.
Proof.
  induction d as [|[k' v'] d IH]; simpl.
  - split; [intros _; apply not_elem_of_nil | done].
  - rewrite not_elem_of_cons. destruct (decide (k = k')) as [->|Hne].
    + split; [done | by intros [? _]].
    + rewrite IH. tauto.
Qed.

Lemma is_empty_true d : PyDict.is_empty d = true ↔ d = [].
Proof. by destruct d. Qed.

Lemma is_empty_false d : PyDict.is_empty d = false ↔ d ≠ [].
Proof. by destruct d. Qed.
End facts.
End PyDictFacts.

(** ** Facts on [sorted] *)
Section sorted_facts.
Context {A : Type} (key : A → Z).
Implicit Types (x : A) (l : list A).

Lemma insert_by_perm x l : insert_by key x l ≡ₚ x :: l.
Proof.
  induction l as [|y l IH]; simpl; [done |].
  destruct (decide (key x ≤ key y)); [done |].
  rewrite IH. apply Permutation_swap.
Qed.

(** [sorted] rearranges its argument ... *)
Lemma sorted_perm l : sorted key l ≡ₚ l.
Proof.
  induction l as [|x l IH]; simpl; [done |].
  by rewrite insert_by_perm, IH.
Qed.

Lemma insert_by_ordered x l :
  Sorted (λ a b, key a ≤ key b) l →
  Sorted (λ a b, key a ≤ key b) (insert_by key x l).
Proof.
  induction 1 as [|y l Hl IH Hhd]; simpl.
  - by repeat constructor.
  - destruct (decide (key x ≤ key y)) as [Hle|Hgt].
    + repeat constructor; assumption.
    + constructor; [exact IH |].
      destruct Hhd as [|z l' Hz]; simpl.
      * constructor. lia.
      * destruct (decide (key x ≤ key z)); constructor; lia.
Qed.

(** ... into ascending order of the key ... *)
Lemma sorted_ordered l : Sorted (λ a b, key a ≤ key b) (sorted key l).
Proof.
  induction l as [|x l IH]; simpl; [constructor |].
  by apply insert_by_ordered.
Qed.

Lemma insert_by_stable (c : Z) x l :
  filter (λ y, key y = c) (insert_by key x l) = filter (λ y, key y = c) (x :: l).
Proof.
  induction l as [|y l IH]; simpl; [done |].
  destruct (decide (key x ≤ key y)) as [Hle|Hgt]; [done |].
  rewrite (filter_cons _ y (insert_by key x l)), IH.
  rewrite !filter_cons.
  destruct (decide (key y = c)), (decide (key x = c)); try done.
  lia.
Qed.

(** ... and keeps elements of equal key in their original order. *)
Lemma sorted_stable (c : Z) l :
  filter (λ y, key y = c) (sorted key l) = filter (λ y, key y = c) l.
Proof.
  induction l as [|x l IH]; simpl; [done |].
  rewrite insert_by_stable, !filter_cons, IH. done.
Qed.

Lemma sorted_nil_inv l : sorted key l = [] → l = [].
Proof.
  intros Hs. apply Permutation_nil_r. rewrite <- Hs. symmetry. apply sorted_perm.
Qed.

(** The head of [sorted]: the first element of least key. *)
Lemma sorted_head l :
  l ≠ [] →
  ∃ pre x post rest,
    l = pre ++ x :: post ∧ sorted key l = x :: rest ∧
    Forall (λ y, key x < key y) pre ∧ Forall (λ y, key x ≤ key y) post.
Proof.
  induction l as [|a l IH]; [done |]. intros _.
  destruct l as [|b l].
  { exists [], a, [], []. by repeat split. }
  destruct IH as (pre & x & post & rest & Hl & Hs & Hpre & Hpost); [done |].
  change (sorted key (a :: b :: l)) with (insert_by key a (sorted key (b :: l))).
  rewrite Hs, Hl. simpl.
  destruct (decide (key a ≤ key x)) as [Hle|Hgt].
  - exists [], a, (pre ++ x :: post), (x :: rest). repeat split; [done |].
    apply Forall_app. split.
    + eapply Forall_impl; [exact Hpre |]. simpl. lia.
    + constructor; [done |]. eapply Forall_impl; [exact Hpost |]. simpl. lia.
  - exists (a :: pre), x, post, (insert_by key a rest). repeat split; [| done].
    constructor; [lia | done].
Qed.
End sorted_facts.

(** ** get_node *)
Section get_node_facts.
Implicit Types (s : State) (identifier region : option string).

Lemma get_node_empty identifier region s :
  _nodes (self s) = [] →
  Pool.get_node identifier region s = (Raise NoAvailableNodes, s).
Proof.
  intros Hd. unfold Pool.get_node, bind, gets, raise. by rewrite Hd.
Qed.

Lemma get_node_by_identifier (i : string) region s :
  _nodes (self s) ≠ [] →
  Pool.get_node (Some i) region s =
    (match PyDict.get (Some i) (_nodes (self s)) with
     | Some node => Ok node
     | None => Raise (NoMatches (Some i) region)
     end, s).
Proof.
  intros Hd%PyDictFacts.is_empty_false.
  unfold Pool.get_node, bind, gets, raise, ret. rewrite Hd.
  by destruct (PyDict.get (Some i) (_nodes (self s))).
Qed.

Lemma get_node_ranked region s :
  _nodes (self s) ≠ [] →
  Pool.get_node None region s =
    (match sorted (NodeModel.player_count (heap s)) (candidates region s) with
     | node :: _ => Ok node
     | [] => Raise (NoMatches None region)
     end, s).
Proof.
  intros Hd%PyDictFacts.is_empty_false.
  unfold Pool.get_node, Pool.walk_nodes, bind, gets, raise, ret, candidates.
  rewrite Hd.
  by destruct region;
    match goal with |- context [sorted ?k ?l] => destruct (sorted k l) end.
Qed.
(** Without identifier and region, a pool with nodes always has an
    answer, and it is one of its nodes. *)
Lemma get_node_some s :
  _nodes (self s) ≠ [] →
  ∃ node, node ∈ PyDict.values (_nodes (self s)) ∧
          Pool.get_node None None s = (Ok node, s).
Proof.
  intros Hd. rewrite (get_node_ranked None s Hd). simpl.
  destruct (sorted_head (NodeModel.player_count (heap s))
              (PyDict.values (_nodes (self s))))
    as (pre & node & post & rest & Hl & -> & _).
  { unfold PyDict.values. by destruct (_nodes (self s)). }
  exists node. split; [| done].
  rewrite Hl. apply elem_of_app. right. left.
Qed.
End get_node_facts.

(** C1.  On a non-empty pool, [get_node()] without identifier and region
    returns a registered node such that every node registered before it
    has a strictly greater player count and every node registered after
    it has a player count at least as great: the node of least load,
    and the earliest registered one among those of least load. *)
Theorem get_node_least_loaded (s : State) :
  _nodes (self s) ≠ [] →
  ∃ pre k node post,
    Pool.get_node None None s = (Ok node, s) ∧
    _nodes (self s) = pre ++ (k, node) :: post ∧
    Forall (λ e, NodeModel.player_count (heap s) node
                 < NodeModel.player_count (heap s) e.2) pre ∧
    Forall (λ e, NodeModel.player_count (heap s) node
                 ≤ NodeModel.player_count (heap s) e.2) post.
Proof.
  intros Hd. rewrite (get_node_ranked None s Hd). simpl.
  destruct (sorted_head (NodeModel.player_count (heap s))
              (PyDict.values (_nodes (self s))))
    as (pre' & node & post' & rest & Hl & Hs & Hpre & Hpost).
  { unfold PyDict.values. by destruct (_nodes (self s)). }
  rewrite Hs. unfold PyDict.values in Hl.
  apply fmap_app_inv in Hl as (pre & tl & -> & Htl & Hd').
  symmetry in Htl. apply fmap_cons_inv in Htl as ([k n] & post & Hn & -> & ->).
  simpl in Hn. subst n.
  exists pre, k, node, post. repeat split; try done.
  - apply Forall_forall. intros e He. rewrite Forall_forall in Hpre.
    apply Hpre, list_elem_of_fmap. by exists e.
  - apply Forall_forall. intros e He. rewrite Forall_forall in Hpost.
    apply Hpost, list_elem_of_fmap. by exists e.
Qed.

Lemma get_node_least_loaded_witness :
  _nodes (self pool_busy) ≠ [] ∧
  ∃ pre k node post,
    Pool.get_node None None pool_busy = (Ok node, pool_busy) ∧
    _nodes (self pool_busy) = pre ++ (k, node) :: post ∧
    Forall (λ e, NodeModel.player_count (heap pool_busy) node
                 < NodeModel.player_count (heap pool_busy) e.2) pre ∧
    Forall (λ e, NodeModel.player_count (heap pool_busy) node
                 ≤ NodeModel.player_count (heap pool_busy) e.2) post.
Proof.
  split; [discriminate |].
  apply (get_node_least_loaded pool_busy). discriminate.
Defined.

(** On [pool_busy] the first node holds two players and the other two
    none: the second node is returned, not the third. *)
Example get_node_pool_busy :
  Pool.get_node None None pool_busy = (Ok node_b, pool_busy).
Proof. reflexivity. Qed.

(** C5 as the code has it.  [get_node] never changes the state, and:
    on an empty pool it raises [NoAvailableNodes], whatever the
    arguments; on a non-empty pool it raises [NoMatches] when an
    identifier is given that no node is registered under, and when no
    identifier is given and no registered node has the region asked for;
    in every other case it returns a registered node. *)
Theorem get_node_errors (identifier region : option string) (s : State) :
  (_nodes (self s) = [] →
     Pool.get_node identifier region s = (Raise NoAvailableNodes, s)) ∧
  (_nodes (self s) ≠ [] →
     ∀ i, identifier = Some i →
          Some i ∉ PyDict.keys (_nodes (self s)) →
          Pool.get_node identifier region s = (Raise (NoMatches identifier region), s)) ∧
  (_nodes (self s) ≠ [] →
     identifier = None →
     ∀ r, region = Some r →
          (∀ node, node ∈ PyDict.values (_nodes (self s)) → Node_region node ≠ Some r) →
          Pool.get_node identifier region s = (Raise (NoMatches identifier region), s)) ∧
  (_nodes (self s) ≠ [] →
     (∀ i, identifier = Some i → Some i ∈ PyDict.keys (_nodes (self s))) →
     (identifier = None →
      ∀ r, region = Some r →
           ∃ node, node ∈ PyDict.values (_nodes (self s)) ∧ Node_region node = Some r) →
     ∃ node, node ∈ PyDict.values (_nodes (self s)) ∧
             Pool.get_node identifier region s = (Ok node, s)).
Proof.
  split; [apply get_node_empty |].
  split; [| split].
  - intros Hd i -> Hi. rewrite get_node_by_identifier by done.
    apply PyDictFacts.get_None_keys in Hi. by rewrite Hi.
  - intros Hd -> r -> Hr. rewrite get_node_ranked by done.
    unfold candidates.
    destruct (sorted _ _) as [|node rest] eqn:Hs; [done |].
    exfalso. apply (Hr node).
    + assert (Hin : node ∈ sorted (NodeModel.player_count (heap s))
                (filter (λ n, Node_region n = Some r) (PyDict.values (_nodes (self s)))))
        by (rewrite Hs; left).
      rewrite sorted_perm in Hin. by apply list_elem_of_filter in Hin as [_ ?].
    + assert (Hin : node ∈ sorted (NodeModel.player_count (heap s))
                (filter (λ n, Node_region n = Some r) (PyDict.values (_nodes (self s)))))
        by (rewrite Hs; left).
      rewrite sorted_perm in Hin. by apply list_elem_of_filter in Hin as [? _].
  - intros Hd Hi Hr. destruct identifier as [i|].
    + rewrite get_node_by_identifier by done.
      destruct (PyDict.get (Some i) (_nodes (self s))) as [node|] eqn:Hg.
      * exists node. split; [| done]. by eapply PyDictFacts.get_Some_value.
      * apply PyDictFacts.get_None_keys in Hg. destruct Hg. by apply Hi.
    + rewrite get_node_ranked by done.
      destruct (sorted _ _) as [|node rest] eqn:Hs.
      * exfalso. apply sorted_nil_inv in Hs. unfold candidates in Hs.
        destruct region as [r|].
        -- destruct (Hr eq_refl r eq_refl) as (node & Hin & Hreg).
           assert (Hf : node ∈ filter (λ n, Node_region n = Some r)
                                (PyDict.values (_nodes (self s))))
             by (by apply list_elem_of_filter).
           rewrite Hs in Hf. by apply not_elem_of_nil in Hf.
        -- unfold PyDict.values in Hs. by destruct (_nodes (self s)).
      * exists node. split; [| done].
        assert (Hin : node ∈ sorted (NodeModel.player_count (heap s)) (candidates region s))
          by (rewrite Hs; left).
        rewrite sorted_perm in Hin. unfold candidates in Hin.
        destruct region; [by apply list_elem_of_filter in Hin as [_ ?] | done].
Qed.

Lemma get_node_errors_witness :
  Pool.get_node (Some "C"%string) (Some "eu"%string) pool_ab
  = (Raise (NoMatches (Some "C"%string) (Some "eu"%string)), pool_ab).
Proof.
  refine (proj1 (proj2 (get_node_errors (Some "C"%string) (Some "eu"%string) pool_ab))
            _ "C"%string eq_refl _).
  - discriminate.
  - vm_compute. intros Hin. repeat (apply elem_of_cons in Hin as [Hin|Hin];
      [discriminate Hin |]). by apply not_elem_of_nil in Hin.
Defined.

(** C5, the claim as it stands fails: with an identifier that no node is
    registered under, an empty pool answers [NoAvailableNodes], not
    [NoMatches]. *)
Lemma get_node_identifier_on_empty_pool :
  PyDict.get (Some "A"%string) (_nodes (self empty_pool)) = None ∧
  Pool.get_node (Some "A"%string) None empty_pool = (Raise NoAvailableNodes, empty_pool) ∧
  fst (Pool.get_node (Some "A"%string) None empty_pool)
    ≠ Raise (NoMatches (Some "A"%string) None).
Proof. split; [reflexivity |]. split; [reflexivity | discriminate]. Qed.

(** ** add_node *)

Lemma add_node_unfold (node : Node) (identifier : option string) (s : State) :
  Pool.add_node node identifier s =
    let checked := default (Node_identifier node) identifier in
    if PyDict.contains (Some checked) (_nodes (self s))
    then (Raise (NodeConflict (Some checked)), s)
    else (Ok tt,
          {| self := {| _nodes := PyDict.set (Some (str_or checked (Node_identifier node)))
                                    node (_nodes (self s)) |};
             heap := heap s |}).
Proof.
  unfold Pool.add_node, bind, gets, raise, on_nodes, modify.
  destruct identifier as [i|]; simpl;
    match goal with |- context [PyDict.contains ?k ?d] => by destruct (PyDict.contains k d) end.
Qed.

(** [add_node] raises [NodeConflict] exactly when the identifier it
    checks (the one given, else the node's own) is a key of the pool,
    and then leaves the state as it was. *)
Lemma add_node_conflict (node : Node) (identifier : option string) (s : State) :
  PyDict.contains (Some (default (Node_identifier node) identifier)) (_nodes (self s)) = true ↔
  Pool.add_node node identifier s
    = (Raise (NodeConflict (Some (default (Node_identifier node) identifier))), s).
Proof.
  rewrite add_node_unfold. simpl.
  destruct (PyDict.contains _ _); split; (done || discriminate).
Qed.

Lemma str_or_nonempty (i t : string) : i ≠ EmptyString → str_or i t = i.
Proof. by destruct i. Qed.

(** C3 as the code has it.  For a node [c] and a non-empty identifier
    [I] that is not registered, [add_node(c, identifier=I)] succeeds,
    appends [c] under [I], and [get_node(I)] on the resulting pool
    returns [c]. *)
Theorem add_node_then_get_node (c : Node) (I : string) (region : option string) (s : State) :
  I ≠ EmptyString →
  PyDict.contains (Some I) (_nodes (self s)) = false →
  ∃ s', Pool.add_node c (Some I) s = (Ok tt, s') ∧
        _nodes (self s') = _nodes (self s) ++ [(Some I, c)] ∧
        heap s' = heap s ∧
        Pool.get_node (Some I) region s' = (Ok c, s').
Proof.
  intros HI Hfree. rewrite add_node_unfold. simpl. rewrite Hfree.
  rewrite (str_or_nonempty _ _ HI).
  eexists. split; [reflexivity |]. simpl.
  apply PyDictFacts.contains_false in Hfree.
  split; [by apply PyDictFacts.set_fresh |]. split; [done |].
  rewrite get_node_by_identifier; simpl.
  - by rewrite PyDictFacts.get_set_eq.
  - rewrite PyDictFacts.set_fresh by done. by destruct (_nodes (self s)).
Qed.

Lemma add_node_then_get_node_witness :
  ("B"%string ≠ EmptyString ∧
   PyDict.contains (Some "B"%string) (_nodes (self pool_a)) = false) ∧
  ∃ s', Pool.add_node node_b (Some "B"%string) pool_a = (Ok tt, s') ∧
        _nodes (self s') = _nodes (self pool_a) ++ [(Some "B"%string, node_b)] ∧
        heap s' = heap pool_a ∧
        Pool.get_node (Some "B"%string) None s' = (Ok node_b, s').
Proof.
  split; [split; [discriminate | reflexivity] |].
  apply (add_node_then_get_node node_b "B" None pool_a); [discriminate | reflexivity].
Defined.

(** C3, the claim as it stands fails for the empty identifier: it is not
    registered, [add_node] succeeds, but the node goes under its own
    identifier and [get_node] with the empty identifier finds nothing. *)
Lemma add_node_empty_identifier_not_found :
  PyDict.contains (Some EmptyString) (_nodes (self empty_pool)) = false ∧
  Pool.add_node node_a (Some EmptyString) empty_pool = (Ok tt, pool_a) ∧
  Pool.get_node (Some EmptyString) None pool_a
    = (Raise (NoMatches (Some EmptyString) None), pool_a).
Proof. split; [reflexivity |]. split; reflexivity. Qed.

(** C6, where the code departs from it: the key that is checked and the
    key that is written differ for the empty identifier.  Here the node
    would go under the key of [node_a], which is taken; no
    [NodeConflict] is raised and [node_a] is replaced. *)
Lemma add_node_empty_identifier_overwrites :
  PyDict.contains (Some (str_or EmptyString (Node_identifier node_a'))) (_nodes (self pool_a))
    = true ∧
  Pool.add_node node_a' (Some EmptyString) pool_a
    = (Ok tt, pool_of [(Some "A"%string, node_a')] idle_heap).
Proof. split; reflexivity. Qed.

(** Also the other way round: the empty identifier is taken, the key the
    node would go under is free, and [NodeConflict] is raised. *)
Example add_node_empty_identifier_refused :
  let taken := pool_of [(Some EmptyString, node_a)] idle_heap in
  PyDict.contains (Some (str_or EmptyString (Node_identifier node_b))) (_nodes (self taken))
    = false ∧
  Pool.add_node node_b (Some EmptyString) taken
    = (Raise (NodeConflict (Some EmptyString)), taken).
Proof. split; reflexivity. Qed.

(** ** create_node *)
Section create_node_facts.
Context {backend : NodeBackend}.

Lemma create_node_unfold (kw : NodeArgs) (s : State) :
  Pool.create_node kw s =
    if PyDict.contains (default_identifier kw s) (_nodes (self s))
    then (Raise (NodeConflict (default_identifier kw s)), s)
    else (Raise (NameError "Node"), s).
Proof.
  unfold Pool.create_node, default_identifier, bind, gets, raise, call_Node.
  simpl. by destruct (PyDict.contains _ _).
Qed.

(** [create_node] raises [NodeConflict] exactly when the identifier it
    tests is a key of the pool, and then leaves the state as it was. *)
Lemma create_node_conflict (kw : NodeArgs) (s : State) :
  PyDict.contains (default_identifier kw s) (_nodes (self s)) = true ↔
  Pool.create_node kw s = (Raise (NodeConflict (default_identifier kw s)), s).
Proof.
  rewrite create_node_unfold.
  destruct (PyDict.contains _ _); split; (done || discriminate).
Qed.

(** With a free key the call of [Node] is reached, and it raises: no
    node is built, nothing is registered. *)
Lemma create_node_free_key (kw : NodeArgs) (s : State) :
  PyDict.contains (default_identifier kw s) (_nodes (self s)) = false →
  Pool.create_node kw s = (Raise (NameError "Node"), s).
Proof. intros Hfree. by rewrite create_node_unfold, Hfree. Qed.

(** Without identifier, on a pool that has no entry under [None], the
    key is free whether the pool has nodes or not. *)
Lemma create_node_blank (kw : NodeArgs) (s : State) :
  kw_identifier kw = None →
  PyDict.contains None (_nodes (self s)) = false →
  Pool.create_node kw s = (Raise (NameError "Node"), s).
Proof.
  intros Hkw Hnone. apply create_node_free_key.
  unfold default_identifier. rewrite Hkw.
  by destruct (_nodes (self s)).
Qed.
End create_node_facts.

(** C8, where the code departs from it: on a pool without nodes,
    [create_node] without identifier takes ['MAIN'] as the key, finds it
    free, and then evaluates the name [Node], which is not bound at run
    time.  [NameError] is raised, no node is built and the pool stays
    empty. *)
Lemma create_node_on_empty_pool_raises :
  default_identifier (kwargs 7%nat) empty_pool = Some "MAIN"%string ∧
  Pool.create_node (backend := reliable) (kwargs 7%nat) empty_pool
    = (Raise (NameError "Node"), empty_pool) ∧
  _nodes (self empty_pool) = [].
Proof. split; [reflexivity |]. split; reflexivity. Qed.

(** C2, where the code departs from it: on the pool holding one node,
    [create_node] without identifier raises [NameError] and registers
    nothing, the first time and, the state being as before, the second
    time. *)
Lemma create_node_blank_twice_raises :
  Pool.create_node (backend := reliable) (kwargs 7%nat) pool_a
    = (Raise (NameError "Node"), pool_a) ∧
  Pool.create_node (backend := reliable) (kwargs 7%nat)
      (snd (Pool.create_node (backend := reliable) (kwargs 7%nat) pool_a))
    = (Raise (NameError "Node"), pool_a).
Proof. split; reflexivity. Qed.

(** ** destroy *)
Section destroy_facts.
Context {backend : NodeBackend}.

Lemma state_eta (s : State) : {| self := self s; heap := heap s |} = s.
Proof. by destruct s. Qed.

Lemma node_state_set_eq (n m : Node) (ns : NodeState) (h : Heap) :
  node_id m = node_id n → node_state (set_node_state n ns h) m = ns.
Proof.
  intros Hid. unfold node_state, set_node_state. simpl.
  by rewrite Hid, lookup_insert_eq.
Qed.

Lemma node_state_set_ne (n m : Node) (ns : NodeState) (h : Heap) :
  node_id m ≠ node_id n → node_state (set_node_state n ns h) m = node_state h m.
Proof.
  intros Hid. unfold node_state, set_node_state. simpl.
  by rewrite lookup_insert_ne.
Qed.

(** One [Node.destroy()]: the call is logged; when it does not raise,
    the node is torn down and the other nodes are as before. *)
Lemma node_destroy_ok (n : Node) (h : Heap) :
  destroy_fault n = None →
  ∃ h', NodeModel.destroy n h = (Ok tt, h') ∧
        trace h' = trace h ++ [EvDestroy (node_id n)] ∧
        torn_down h' n ∧
        (∀ m, torn_down h m → torn_down h' m) ∧
        (∀ m, node_id m ≠ node_id n → node_state h' m = node_state h m).
Proof.
  intros Hok. unfold NodeModel.destroy. rewrite Hok.
  eexists. split; [reflexivity |]. split; [reflexivity |].
  unfold torn_down. split; [by rewrite node_state_set_eq | split].
  - intros m Hm. destruct (decide (node_id m = node_id n)) as [Heq|Hne].
    + by rewrite node_state_set_eq.
    + by rewrite node_state_set_ne.
  - intros m Hne. by rewrite node_state_set_ne.
Qed.

Lemma node_destroy_fail (n : Node) (e : exn) (h : Heap) :
  destroy_fault n = Some e →
  NodeModel.destroy n h = (Raise e, log (EvDestroy (node_id n)) h).
Proof. intros Hf. unfold NodeModel.destroy. by rewrite Hf. Qed.

(** The loop over nodes none of whose [destroy] raises. *)
Lemma destroy_each_ok (l : list Node) (s : State) :
  Forall (λ n, destroy_fault n = None) l →
  ∃ h', Pool.destroy_each l s = (Ok tt, {| self := self s; heap := h' |}) ∧
        trace h' = trace (heap s) ++ destroy_calls l ∧
        Forall (torn_down h') l ∧
        (∀ m, torn_down (heap s) m → torn_down h' m) ∧
        (∀ m, node_id m ∉ node_id <$> l → node_state h' m = node_state (heap s) m).
Proof.
  intros Hl. revert s. induction Hl as [|n l Hn Hl IH]; intros s.
  - exists (heap s). simpl. unfold ret. rewrite state_eta, app_nil_r.
    by repeat split.
  - destruct (node_destroy_ok n (heap s) Hn) as (h1 & Hrun & Htr & Hdown & Hkeep & Hother).
    destruct (IH {| self := self s; heap := h1 |})
      as (h' & Hrun' & Htr' & Hdown' & Hkeep' & Hother').
    simpl in *. exists h'.
    unfold bind, on_heap. rewrite Hrun, Hrun'.
    split; [done |]. split; [| split; [| split]].
    + rewrite Htr', Htr, <- app_assoc. done.
    + constructor; [by apply Hkeep' | done].
    + intros m Hm. by apply Hkeep', Hkeep.
    + intros m Hm. apply not_elem_of_cons in Hm as [Hne Hm].
      rewrite Hother' by done. by apply Hother.
Qed.

(** The loop with a node whose [destroy] raises: it ends there. *)
Lemma destroy_each_fail (pre : list Node) (n : Node) (post : list Node) (e : exn)
    (s : State) :
  Forall (λ n, destroy_fault n = None) pre →
  destroy_fault n = Some e →
  ∃ h', Pool.destroy_each (pre ++ n :: post) s
          = (Raise e, {| self := self s; heap := h' |}) ∧
        trace h' = trace (heap s) ++ destroy_calls (pre ++ [n]) ∧
        Forall (torn_down h') pre ∧
        (∀ m, torn_down (heap s) m → torn_down h' m) ∧
        (∀ m, node_id m ∉ node_id <$> pre → node_state h' m = node_state (heap s) m).
Proof.
  intros Hpre Hn. revert s. induction Hpre as [|a pre Ha Hpre IH]; intros s.
  - exists (log (EvDestroy (node_id n)) (heap s)). simpl.
    unfold bind, on_heap. rewrite (node_destroy_fail n e) by done.
    by repeat split.
  - destruct (node_destroy_ok a (heap s) Ha) as (h1 & Hrun & Htr & Hdown & Hkeep & Hother).
    destruct (IH {| self := self s; heap := h1 |})
      as (h' & Hrun' & Htr' & Hdown' & Hkeep' & Hother').
    simpl in *. exists h'.
    unfold bind, on_heap. rewrite Hrun.
    unfold bind, on_heap in Hrun'. rewrite Hrun'.
    split; [done |]. split; [| split; [| split]].
    + rewrite Htr', Htr, <- app_assoc. done.
    + constructor; [by apply Hkeep' | done].
    + intros m Hm. by apply Hkeep', Hkeep.
    + intros m Hm. apply not_elem_of_cons in Hm as [Hne Hm].
      rewrite Hother' by done. by apply Hother.
Qed.
End destroy_facts.

Section destroy_claims.
Context {backend : NodeBackend}.

Lemma destroy_unfold (s : State) :
  Pool.destroy s =
    match Pool.destroy_each (PyDict.values (_nodes (self s))) s with
    | (Ok _, s') => (Ok tt, {| self := {| _nodes := [] |}; heap := heap s' |})
    | (Raise e, s') => (Raise e, s')
    end.
Proof.
  unfold Pool.destroy, Pool.walk_nodes, bind, gets, on_nodes, modify. simpl.
  by destruct (Pool.destroy_each _ s) as [[[]|e] s'].
Qed.

(** C4 as the code has it.  [destroy] tears the nodes down in
    registration order.  When no node's [destroy] raises, every node is
    torn down and the pool is empty afterwards.  When a node's [destroy]
    raises, the exception leaves [destroy] at once: the nodes before it
    are torn down, no call is made on the nodes after it, and the pool
    keeps all its entries. *)
Theorem destroy_stops_at_first_failure (s : State) :
  (Forall (λ n, destroy_fault n = None) (PyDict.values (_nodes (self s))) →
   ∃ h', Pool.destroy s = (Ok tt, {| self := {| _nodes := [] |}; heap := h' |}) ∧
         trace h' = trace (heap s) ++ destroy_calls (PyDict.values (_nodes (self s))) ∧
         Forall (torn_down h') (PyDict.values (_nodes (self s)))) ∧
  (∀ pre n post e,
     PyDict.values (_nodes (self s)) = pre ++ n :: post →
     Forall (λ n, destroy_fault n = None) pre →
     destroy_fault n = Some e →
     ∃ h', Pool.destroy s = (Raise e, {| self := self s; heap := h' |}) ∧
           trace h' = trace (heap s) ++ destroy_calls (pre ++ [n]) ∧
           Forall (torn_down h') pre ∧
           (∀ m, node_id m ∉ node_id <$> pre → node_state h' m = node_state (heap s) m)).
Proof.
  split.
  - intros Hok. rewrite destroy_unfold.
    destruct (destroy_each_ok _ s Hok) as (h' & -> & Htr & Hdown & _).
    exists h'. by repeat split.
  - intros pre n post e Hl Hpre Hn. rewrite destroy_unfold, Hl.
    destruct (destroy_each_fail pre n post e s Hpre Hn)
      as (h' & -> & Htr & Hdown & _ & Hother).
    exists h'. by repeat split.
Qed.


End destroy_claims.

Lemma destroy_stops_at_first_failure_witness :
  ∃ h', Pool.destroy (backend := closing_fails 0) pool_ab
          = (Raise (Foreign "close"), {| self := self pool_ab; heap := h' |}) ∧
        trace h' = trace (heap pool_ab) ++ destroy_calls ([] ++ [node_a]) ∧
        Forall (torn_down h') [] ∧
        (∀ m, node_id m ∉ node_id <$> [] → node_state h' m = node_state (heap pool_ab) m).
Proof.
  refine (proj2 (destroy_stops_at_first_failure (backend := closing_fails 0) pool_ab)
            [] node_a [node_b] (Foreign "close") _ _ _).
  - reflexivity.
  - constructor.
  - reflexivity.
Defined.

(** C4, the claim as it stands fails: when [destroy] of the first of two
    nodes raises, [destroy] of the pool raises too, the second node is
    never torn down and both entries stay. *)
Lemma destroy_aborts_on_failure :
  Pool.destroy (backend := closing_fails 0) pool_ab
    = (Raise (Foreign "close"), pool_ab_stuck) ∧
  trace (heap pool_ab_stuck) = [EvDestroy (node_id node_a)] ∧
  ¬ torn_down (heap pool_ab_stuck) node_b ∧
  length (_nodes (self pool_ab_stuck)) = 2%nat.
Proof.
  split; [reflexivity |]. split; [reflexivity |]. split; [discriminate | reflexivity].
Qed.


(** ** get_player *)
Section get_player_facts.
Implicit Types (s : State) (h : Heap) (guild : Z) (l : list Node).

(** The loop changes nothing and finds what [lookup_player] finds. *)
Lemma find_player_lookup guild l s :
  Pool.find_player guild l s = (Ok (lookup_player (heap s) guild l), s).
Proof.
  induction l as [|n l IH]; simpl; [done |].
  unfold on_heap, NodeModel.get_player.
  destruct (players (node_state (heap s) n) !! guild) as [p|]; simpl;
    rewrite state_eta; [done | apply IH].
Qed.

Lemma lookup_player_None guild l h :
  lookup_player h guild l = None →
  ∀ n, n ∈ l → players (node_state h n) !! guild = None.
Proof.
  induction l as [|a l IH]; simpl; intros Hl n Hn.
  - by apply not_elem_of_nil in Hn.
  - destruct (players (node_state h a) !! guild) eqn:Ha; [discriminate |].
    apply elem_of_cons in Hn as [->|Hn]; [done | by apply IH].
Qed.

(** Once a node of the list has a player for the guild, and the other
    nodes are as they were, with none, the loop finds that player. *)
Lemma lookup_player_created guild l h h' (node : Node) (p : Player) :
  (∀ m, node_id m = node_id node → players (node_state h' m) !! guild = Some p) →
  (∀ m, node_id m ≠ node_id node → node_state h' m = node_state h m) →
  node ∈ l →
  lookup_player h guild l = None →
  lookup_player h' guild l = Some p.
Proof.
  intros Hsame Hother. induction l as [|a l IH]; simpl; intros Hin Hl.
  - by apply not_elem_of_nil in Hin.
  - destruct (players (node_state h a) !! guild) eqn:Ha; [discriminate |].
    destruct (decide (node_id a = node_id node)) as [Heq|Hne].
    + by rewrite (Hsame a Heq).
    + rewrite (Hother a Hne), Ha. apply IH; [| done].
      apply elem_of_cons in Hin as [->|Hin]; [done | done].
Qed.

(** A player that the loop finds is returned, and nothing changes. *)
Lemma get_player_found guild s (p : Player) :
  lookup_player (heap s) guild (PyDict.values (_nodes (self s))) = Some p →
  Pool.get_player guild None s = (Ok p, s).
Proof.
  intros Hl. unfold Pool.get_player, Pool.walk_nodes, bind, gets.
  by rewrite find_player_lookup, Hl.
Qed.

Lemma get_player_miss guild s :
  lookup_player (heap s) guild (PyDict.values (_nodes (self s))) = None →
  Pool.get_player guild None s =
    match Pool.get_node None None s with
    | (Ok node, s') => on_heap (NodeModel.get_player node guild false) s'
    | (Raise e, s') => (Raise e, s')
    end.
Proof.
  intros Hl. unfold Pool.get_player, Pool.walk_nodes, bind at 1 2, gets.
  rewrite find_player_lookup, Hl. reflexivity.
Qed.

(** The three ways a call without [node] can go. *)
Lemma get_player_cases guild s :
  (∃ p, Pool.get_player guild None s = (Ok p, s) ∧
        lookup_player (heap s) guild (PyDict.values (_nodes (self s))) = Some p) ∨
  (_nodes (self s) = [] ∧
   Pool.get_player guild None s = (Raise NoAvailableNodes, s)) ∨
  (_nodes (self s) ≠ [] ∧
   lookup_player (heap s) guild (PyDict.values (_nodes (self s))) = None ∧
   ∃ p s1, Pool.get_player guild None s = (Ok p, s1) ∧
           self s1 = self s ∧
           next_player (heap s1) = S (next_player (heap s)) ∧
           lookup_player (heap s1) guild (PyDict.values (_nodes (self s))) = Some p).
Proof.
  destruct (lookup_player (heap s) guild (PyDict.values (_nodes (self s))))
    as [p|] eqn:Hl.
  { left. exists p. split; [by apply get_player_found | done]. }
  right. rewrite (get_player_miss guild s Hl).
  destruct (decide (_nodes (self s) = [])) as [Hd|Hd].
  { left. by rewrite get_node_empty. }
  right. split; [done |]. split; [done |].
  destruct (get_node_some s Hd) as (node & Hin & ->).
  pose proof (lookup_player_None guild _ _ Hl node Hin) as Hnone.
  unfold on_heap, NodeModel.get_player. rewrite Hnone. simpl.
  eexists _, _. split; [reflexivity |]. simpl. split; [done |]. split; [done |].
  eapply (lookup_player_created guild _ (heap s) _ node); [| | exact Hin | exact Hl].
  - intros m Hm. unfold node_state at 1. simpl.
    rewrite Hm, lookup_insert_eq. simpl. by rewrite lookup_insert_eq.
  - intros m Hm. unfold node_state. simpl. by rewrite lookup_insert_ne.
Qed.

(** Whatever the first call did, a second call does the same and
    changes nothing. *)
Lemma get_player_again guild s (r : result Player) (s1 : State) :
  Pool.get_player guild None s = (r, s1) →
  Pool.get_player guild None s1 = (r, s1).
Proof.
  destruct (get_player_cases guild s)
    as [(p & Hrun & _) | [(_ & Hrun) | (_ & _ & p & s2 & Hrun & Hself & _ & Hl)]];
    rewrite Hrun; intros [= <- <-]; try done.
  apply get_player_found. by rewrite Hself.
Qed.

(** C7.  On a pool with nodes, [get_player(guild)] called twice returns
    the same player both times; the second call creates nothing: it
    leaves the state as the first call left it, and its player is the
    one that the loop over the registered nodes, in registration order,
    finds first. *)
Theorem get_player_twice guild s :
  _nodes (self s) ≠ [] →
  ∃ p s1,
    Pool.get_player guild None s = (Ok p, s1) ∧
    Pool.get_player guild None s1 = (Ok p, s1) ∧
    lookup_player (heap s1) guild (PyDict.values (_nodes (self s1))) = Some p.
Proof.
  intros Hd.
  destruct (get_player_cases guild s)
    as [(p & Hrun & Hl) | [(Hnil & _) | (_ & _ & p & s1 & Hrun & Hself & _ & Hl)]].
  - exists p, s. by repeat split.
  - done.
  - exists p, s1. rewrite Hself. split; [done |]. split; [| done].
    by apply (get_player_again guild s).
Qed.
End get_player_facts.

Lemma get_player_twice_witness :
  _nodes (self pool_busy) ≠ [] ∧
  ∃ p s1,
    Pool.get_player 42 None pool_busy = (Ok p, s1) ∧
    Pool.get_player 42 None s1 = (Ok p, s1) ∧
    lookup_player (heap s1) 42 (PyDict.values (_nodes (self s1))) = Some p.
Proof.
  split; [discriminate |].
  apply (get_player_twice 42 pool_busy). discriminate.
Defined.

(** On [pool_busy], guild 42 has no player: the first call creates
    player 2 on [node_b], the least loaded node, and the second call
    returns that player. *)
Example get_player_pool_busy :
  fst (Pool.get_player 42 None pool_busy)
    = Ok {| player_id := 2; player_node := 1; player_guild := 42 |} ∧
  fst (Pool.get_player 42 None (snd (Pool.get_player 42 None pool_busy)))
    = Ok {| player_id := 2; player_node := 1; player_guild := 42 |}.
Proof. split; vm_compute; reflexivity. Qed.

(** On a pool without nodes both calls raise [NoAvailableNodes]. *)
Example get_player_empty_pool :
  Pool.get_player 42 None empty_pool = (Raise NoAvailableNodes, empty_pool).
Proof. reflexivity. Qed.

(** ** The shortcuts of the module *)
Section shortcut_claims.
Context {backend : NodeBackend}.

Lemma kwargs_eta (kw : NodeArgs) :
  {| kw_bot := kw_bot kw; kw_host := kw_host kw; kw_port := kw_port kw;
     kw_password := kw_password kw; kw_region := kw_region kw;
     kw_identifier := kw_identifier kw; kw_session := kw_session kw;
     kw_loop := kw_loop kw; kw_prefer_http := kw_prefer_http kw;
     kw_secure := kw_secure kw; kw_serializer := kw_serializer kw |} = kw.
Proof. by destruct kw. Qed.

(** C10.  Each of [create_node], [start_node], [add_node], [get_node]
    and [get_player] of the module gives, from every state of the
    module, the value or the exception that the method of the same name
    gives on [DefaultNodePool] with the same arguments, and leaves
    [DefaultNodePool] and the heap as the method leaves them. *)
Theorem shortcuts_same_as_methods :
  (∀ kw, same_as_method (create_node kw) (Pool.create_node kw)) ∧
  (∀ kw, same_as_method (start_node kw) (Pool.start_node kw)) ∧
  (∀ node identifier,
     same_as_method (add_node node identifier) (Pool.add_node node identifier)) ∧
  (∀ identifier region,
     same_as_method (get_node identifier region) (Pool.get_node identifier region)) ∧
  (∀ guild node,
     same_as_method (get_player guild node) (Pool.get_player guild node)).
Proof.
  split; [| split; [| split; [| split]]].
  - intros kw g. unfold create_node. by rewrite kwargs_eta.
  - intros kw g. unfold start_node. by rewrite kwargs_eta.
  - intros node identifier g. unfold add_node, bind, on_default, ret.
    by destruct (Pool.add_node _ _ _) as [[[]|e] s'].
  - intros identifier region g. reflexivity.
  - intros guild node g. reflexivity.
Qed.
End shortcut_claims.

(** The first [create_node()] of a program raises [NameError] and
    leaves [DefaultNodePool] empty. *)
Example create_node_after_import :
  create_node (backend := reliable) (kwargs 7%nat) (import idle_heap)
    = (Raise (NameError "Node"), import idle_heap).
Proof. reflexivity. Qed.

(** * Further properties of the pool *)

(** ** Registering and finding again *)
Section registration_round_trips.
Context {backend : NodeBackend}.

Lemma str_or_same (i : string) : str_or i i = i.
Proof. by destruct i. Qed.

Lemma contains_set (k : option string) (v : Node) (d : PyDict.t (option string) Node) :
  PyDict.contains k (PyDict.set k v d) = true.
Proof. unfold PyDict.contains. by rewrite PyDictFacts.get_set_eq. Qed.

Lemma set_nonempty (k : option string) (v : Node) (d : PyDict.t (option string) Node) :
  PyDict.set k v d ≠ [].
Proof. destruct d as [|[k' v'] d]; simpl; [done |]. by destruct (decide (k = k')). Qed.

(** X1.  [add_node(c)] without identifier, for a node whose own
    identifier is not registered (empty or not): the call succeeds, [c]
    goes to the end of the pool under its own identifier, the heap is
    untouched, and [get_node] with that identifier returns [c]. *)
Theorem add_node_own_identifier (c : Node) (region : option string) (s : State) :
  PyDict.contains (Some (Node_identifier c)) (_nodes (self s)) = false →
  ∃ s', Pool.add_node c None s = (Ok tt, s') ∧
        _nodes (self s') = _nodes (self s) ++ [(Some (Node_identifier c), c)] ∧
        heap s' = heap s ∧
        Pool.get_node (Some (Node_identifier c)) region s' = (Ok c, s').
Proof.
  intros Hfree. rewrite add_node_unfold. simpl. rewrite Hfree, str_or_same.
  eexists. split; [reflexivity |]. simpl.
  apply PyDictFacts.contains_false in Hfree.
  split; [by apply PyDictFacts.set_fresh |]. split; [done |].
  rewrite get_node_by_identifier; simpl.
  - by rewrite PyDictFacts.get_set_eq.
  - apply set_nonempty.
Qed.

Lemma contains_set_keeps (k k' : option string) (v : Node)
    (d : PyDict.t (option string) Node) :
  PyDict.contains k d = true → PyDict.contains k (PyDict.set k' v d) = true.
Proof.
  unfold PyDict.contains. destruct (decide (k' = k)) as [->|Hne].
  - by rewrite PyDictFacts.get_set_eq.
  - by rewrite PyDictFacts.get_set_ne.
Qed.

Lemma get_node_state (identifier region : option string) (s : State) :
  snd (Pool.get_node identifier region s) = s.
Proof.
  destruct (decide (_nodes (self s) = [])) as [Hd|Hd].
  { by rewrite get_node_empty. }
  destruct identifier as [i|].
  - by rewrite get_node_by_identifier.
  - by rewrite get_node_ranked.
Qed.

Lemma get_player_self (guild : Z) (node : option Node) (s : State) :
  self (snd (Pool.get_player guild node s)) = self s.
Proof.
  destruct node as [n|].
  - unfold Pool.get_player, on_heap. by destruct (NodeModel.get_player n guild false _).
  - destruct (get_player_cases guild s)
      as [(p & -> & _) | [(_ & ->) | (_ & _ & p & s1 & -> & Hself & _)]]; done.
Qed.

Lemma start_node_unfold (kw : NodeArgs) (s : State) :
  Pool.start_node kw s =
    match Pool.create_node kw s with
    | (Ok node, s1) =>
        match NodeModel.start node (heap s1) with
        | (Ok _, h) => (Ok node, {| self := self s1; heap := h |})
        | (Raise e, h) => (Raise e, {| self := self s1; heap := h |})
        end
    | (Raise e, s1) => (Raise e, s1)
    end.
Proof.
  unfold Pool.start_node, bind, on_heap, ret.
  destruct (Pool.create_node kw s) as [[node|e] s1]; [| done].
  by destruct (NodeModel.start node (heap s1)) as [[[]|e] h].
Qed.

(** No call other than [destroy] takes an identifier out of the pool. *)
Lemma after_call_keeps (k : option string) (c : call) (s : State) :
  PyDict.contains k (_nodes (self s)) = true →
  PyDict.contains k (_nodes (self (after_call c s))) = true.
Proof.
  intros Hk. destruct c as [node identifier|kw|kw|identifier region|guild node]; simpl.
  - rewrite add_node_unfold. simpl.
    destruct (PyDict.contains (Some _) _); [done |]. simpl.
    by apply contains_set_keeps.
  - rewrite create_node_unfold.
    by destruct (PyDict.contains (default_identifier kw s) _).
  - rewrite start_node_unfold, create_node_unfold.
    by destruct (PyDict.contains (default_identifier kw s) _).
  - by rewrite get_node_state.
  - by rewrite get_player_self.
Qed.

Lemma after_calls_keeps (k : option string) (cs : list call) (s : State) :
  PyDict.contains k (_nodes (self s)) = true →
  PyDict.contains k (_nodes (self (after_calls cs s))) = true.
Proof.
  revert s. induction cs as [|c cs IH]; intros s Hk; [done |].
  apply IH. by apply after_call_keeps.
Qed.

(** X2.  Once [add_node] has succeeded with a non-empty identifier, that
    identifier stays taken until [destroy]: after any sequence of
    further [add_node], [create_node], [start_node], [get_node] and
    [get_player] calls, [add_node] and [create_node] with it raise
    [NodeConflict] with it and leave the state as it is. *)
Theorem registered_identifier_refused (c c' : Node) (I : string) (kw : NodeArgs)
    (s s' : State) (cs : list call) :
  I ≠ EmptyString →
  kw_identifier kw = Some I →
  Pool.add_node c (Some I) s = (Ok tt, s') →
  Pool.add_node c' (Some I) (after_calls cs s')
    = (Raise (NodeConflict (Some I)), after_calls cs s') ∧
  Pool.create_node kw (after_calls cs s')
    = (Raise (NodeConflict (Some I)), after_calls cs s').
Proof.
  intros HI Hkw. rewrite add_node_unfold. simpl.
  destruct (PyDict.contains (Some I) (_nodes (self s))); [discriminate |].
  rewrite (str_or_nonempty _ _ HI). intros [= <-].
  match goal with |- context [after_calls cs ?st] =>
    pose proof (after_calls_keeps (Some I) cs st (contains_set _ _ _)) as Hk
  end.
  split.
  - rewrite add_node_unfold. simpl. by rewrite Hk.
  - rewrite create_node_unfold. unfold default_identifier. rewrite Hkw.
    by rewrite Hk.
Qed.

(** X4.  [create_node] always raises and never changes anything: no
    node is built and nothing is registered.  It raises [NodeConflict]
    with the key it tests (the identifier given; ['MAIN'] when none is
    given and the pool is empty; [None] otherwise) exactly when that key
    is taken, and [NameError] otherwise, the name [Node] not being bound
    at run time. *)
Theorem create_node_raises (kw : NodeArgs) (s : State) :
  ∃ e, Pool.create_node kw s = (Raise e, s) ∧
       (PyDict.contains (default_identifier kw s) (_nodes (self s)) = true →
        e = NodeConflict (default_identifier kw s)) ∧
       (PyDict.contains (default_identifier kw s) (_nodes (self s)) = false →
        e = NameError "Node").
Proof.
  rewrite create_node_unfold.
  destruct (PyDict.contains _ _); eexists; (split; [reflexivity |]); by split.
Qed.
End registration_round_trips.

Lemma add_node_own_identifier_witness :
  PyDict.contains (Some (Node_identifier node_b)) (_nodes (self pool_a)) = false ∧
  ∃ s', Pool.add_node node_b None pool_a = (Ok tt, s') ∧
        _nodes (self s') = _nodes (self pool_a) ++ [(Some (Node_identifier node_b), node_b)] ∧
        heap s' = heap pool_a ∧
        Pool.get_node (Some (Node_identifier node_b)) None s' = (Ok node_b, s').
Proof.
  split; [reflexivity |].
  apply (add_node_own_identifier node_b None pool_a). reflexivity.
Defined.

Lemma registered_identifier_refused_witness :
  let later := after_calls (backend := reliable)
                 [CallGetPlayer 42 None; CallAddNode node_a' (Some "C"%string);
                  CallCreateNode (kwargs 7%nat); CallGetNode None None] pool_ab in
  Pool.add_node node_a' (Some "B"%string) later
    = (Raise (NodeConflict (Some "B"%string)), later) ∧
  Pool.create_node (backend := reliable)
      (with_identifier (Some "B"%string) (kwargs 7%nat)) later
    = (Raise (NodeConflict (Some "B"%string)), later).
Proof.
  apply (registered_identifier_refused (backend := reliable) node_b node_a' "B"
           (with_identifier (Some "B"%string) (kwargs 7%nat)) pool_a pool_ab
           [CallGetPlayer 42 None; CallAddNode node_a' (Some "C"%string);
            CallCreateNode (kwargs 7%nat); CallGetNode None None]).
  - discriminate.
  - reflexivity.
  - reflexivity.
Defined.

Lemma create_node_raises_witness :
  ∃ e, Pool.create_node (backend := reliable) (kwargs 7%nat) pool_ab
         = (Raise e, pool_ab) ∧
       (PyDict.contains (default_identifier (kwargs 7%nat) pool_ab)
          (_nodes (self pool_ab)) = true →
        e = NodeConflict (default_identifier (kwargs 7%nat) pool_ab)) ∧
       (PyDict.contains (default_identifier (kwargs 7%nat) pool_ab)
          (_nodes (self pool_ab)) = false →
        e = NameError "Node").
Proof. exact (create_node_raises (backend := reliable) (kwargs 7%nat) pool_ab). Defined.

(** ** start_node *)
Section start_node_facts.
Context {backend : NodeBackend}.

(** X5.  [start_node] never starts a node: [create_node] raises before
    [start()] is reached, so [start_node] raises what [create_node]
    raises there and leaves the state, the trace of calls on nodes
    included, as it is. *)
Theorem start_node_never_starts (kw : NodeArgs) (s : State) :
  ∃ e, Pool.create_node kw s = (Raise e, s) ∧
       Pool.start_node kw s = (Raise e, s).
Proof.
  rewrite start_node_unfold, create_node_unfold.
  destruct (PyDict.contains _ _); eexists; by split.
Qed.

(** X6.  When the key is taken, [start_node] raises [NodeConflict] and
    leaves the state as it is: no node is built and no [start()] is
    called, on the node that holds the key or on any other. *)
Theorem start_node_conflict_starts_nothing (kw : NodeArgs) (s : State) :
  PyDict.contains (default_identifier kw s) (_nodes (self s)) = true →
  Pool.start_node kw s = (Raise (NodeConflict (default_identifier kw s)), s).
Proof.
  intros Htaken. rewrite start_node_unfold, create_node_unfold.
  by rewrite Htaken.
Qed.
End start_node_facts.

Lemma start_node_conflict_starts_nothing_witness :
  Pool.start_node (backend := reliable)
      (with_identifier (Some "A"%string) (kwargs 7%nat)) pool_ab
    = (Raise (NodeConflict (Some "A"%string)), pool_ab).
Proof.
  apply (start_node_conflict_starts_nothing (backend := reliable)
           (with_identifier (Some "A"%string) (kwargs 7%nat)) pool_ab).
  reflexivity.
Defined.

(** On a pool where the key is free it is [NameError] that comes out. *)
Example start_node_free_key :
  Pool.start_node (backend := reliable)
      (with_identifier (Some "C"%string) (kwargs 7%nat)) pool_ab
    = (Raise (NameError "Node"), pool_ab).
Proof. reflexivity. Qed.

(** ** More on get_node *)
Section get_node_more.
Implicit Types (s : State) (identifier region : option string).

(** X8.  With an identifier, [get_node] does not look at [region]: the
    node registered under the identifier is returned whatever region is
    asked for, also one the node does not have. *)
Theorem get_node_identifier_ignores_region (i : string) region s (node : Node) :
  PyDict.get (Some i) (_nodes (self s)) = Some node →
  Pool.get_node (Some i) region s = (Ok node, s).
Proof.
  intros Hg. rewrite get_node_by_identifier.
  - by rewrite Hg.
  - intros Hd. by rewrite Hd in Hg.
Qed.

Lemma filter_split {A} (P : A → Prop) `{∀ x, Decision (P x)} (l pre' post' : list A) (x : A) :
  filter P l = pre' ++ x :: post' →
  ∃ pre post, l = pre ++ x :: post ∧ filter P pre = pre' ∧ filter P post = post'.
Proof.
  revert pre'. induction l as [|a l IH]; intros pre' Hf.
  - by destruct pre'.
  - rewrite filter_cons in Hf. destruct (decide (P a)) as [Ha|Ha].
    + destruct pre' as [|b pre']; simpl in Hf.
      * injection Hf as -> <-. by exists [], l.
      * injection Hf as <- Hf. destruct (IH pre' Hf) as (pre & post & -> & <- & <-).
        exists (a :: pre), post. rewrite filter_cons, decide_True by done. done.
    + destruct (IH pre' Hf) as (pre & post & -> & <- & <-).
      exists (a :: pre), post. rewrite filter_cons, decide_False by done. done.
Qed.

(** X9.  With a region and no identifier, on a pool that has a node of
    that region, [get_node] returns a registered node of that region
    such that every node of the region registered before it has a
    strictly greater player count and every node of the region
    registered after it a player count at least as great.  Nodes of
    other regions play no part, however little loaded. *)
Theorem get_node_region_least_loaded (r : string) s :
  (∃ n, n ∈ PyDict.values (_nodes (self s)) ∧ Node_region n = Some r) →
  ∃ pre k node post,
    Pool.get_node None (Some r) s = (Ok node, s) ∧
    _nodes (self s) = pre ++ (k, node) :: post ∧
    Node_region node = Some r ∧
    Forall (λ e, Node_region e.2 = Some r →
                 NodeModel.player_count (heap s) node
                 < NodeModel.player_count (heap s) e.2) pre ∧
    Forall (λ e, Node_region e.2 = Some r →
                 NodeModel.player_count (heap s) node
                 ≤ NodeModel.player_count (heap s) e.2) post.
Proof.
  intros (n & Hn & Hr).
  assert (Hd : _nodes (self s) ≠ []).
  { intros Hd. rewrite Hd in Hn. by apply not_elem_of_nil in Hn. }
  rewrite (get_node_ranked (Some r) s Hd). simpl.
  destruct (sorted_head (NodeModel.player_count (heap s))
              (filter (λ node, Node_region node = Some r)
                      (PyDict.values (_nodes (self s)))))
    as (pre' & node & post' & rest & Hl & -> & Hpre & Hpost).
  { intros Hnil.
    assert (Hin : n ∈ filter (λ node, Node_region node = Some r)
                         (PyDict.values (_nodes (self s))))
      by (by apply list_elem_of_filter).
    rewrite Hnil in Hin. by apply not_elem_of_nil in Hin. }
  assert (Hnode : Node_region node = Some r).
  { assert (Hin : node ∈ filter (λ node, Node_region node = Some r)
                           (PyDict.values (_nodes (self s))))
      by (rewrite Hl; apply elem_of_app; right; left).
    by apply list_elem_of_filter in Hin as [? _]. }
  apply filter_split in Hl as (pre2 & post2 & Hv & <- & <-).
  unfold PyDict.values in Hv.
  apply fmap_app_inv in Hv as (pre & tl & -> & Htl & Hd').
  symmetry in Htl. apply fmap_cons_inv in Htl as ([k m] & post & Hm & -> & ->).
  simpl in Hm. subst m.
  exists pre, k, node, post. repeat split; try done.
  - apply Forall_forall. intros e He Hreg. rewrite Forall_forall in Hpre.
    apply Hpre, list_elem_of_filter. split; [done |].
    apply list_elem_of_fmap. by exists e.
  - apply Forall_forall. intros e He Hreg. rewrite Forall_forall in Hpost.
    apply Hpost, list_elem_of_filter. split; [done |].
    apply list_elem_of_fmap. by exists e.
Qed.

(** X10.  A [NoMatches] that [get_node] raises carries the identifier
    and the region of the call, and at least one of the two is given:
    the list [entities] that its message is built from is never empty. *)
Theorem get_node_NoMatches_names_entity (repr : string → string)
    identifier region s (i r : option string) (s' : State) :
  Pool.get_node identifier region s = (Raise (NoMatches i r), s') →
  i = identifier ∧ r = region ∧ NoMatches_entities repr i r ≠ [].
Proof.
  destruct (decide (_nodes (self s) = [])) as [Hd|Hd].
  { by rewrite get_node_empty. }
  destruct identifier as [j|].
  - rewrite get_node_by_identifier by done.
    destruct (PyDict.get (Some j) (_nodes (self s))); [discriminate |].
    intros [= <- <- <-]. by repeat split.
  - rewrite get_node_ranked by done.
    destruct (sorted _ _) as [|node rest] eqn:Hs; [| discriminate].
    intros [= <- <- <-]. split; [done |]. split; [done |].
    destruct region as [r|]; [done |].
    apply sorted_nil_inv in Hs. simpl in Hs. unfold PyDict.values in Hs.
    by destruct (_nodes (self s)).
Qed.
End get_node_more.

Lemma get_node_identifier_ignores_region_witness :
  PyDict.get (Some "A"%string) (_nodes (self pool_ab)) = Some node_a ∧
  Node_region node_a ≠ Some "us"%string ∧
  Pool.get_node (Some "A"%string) (Some "us"%string) pool_ab = (Ok node_a, pool_ab).
Proof.
  split; [reflexivity |]. split; [discriminate |].
  apply (get_node_identifier_ignores_region "A" (Some "us"%string) pool_ab node_a).
  reflexivity.
Defined.

Lemma get_node_region_least_loaded_witness :
  ∃ pre k node post,
    Pool.get_node None (Some "eu"%string) pool_busy = (Ok node, pool_busy) ∧
    _nodes (self pool_busy) = pre ++ (k, node) :: post ∧
    Node_region node = Some "eu"%string ∧
    Forall (λ e, Node_region e.2 = Some "eu"%string →
                 NodeModel.player_count (heap pool_busy) node
                 < NodeModel.player_count (heap pool_busy) e.2) pre ∧
    Forall (λ e, Node_region e.2 = Some "eu"%string →
                 NodeModel.player_count (heap pool_busy) node
                 ≤ NodeModel.player_count (heap pool_busy) e.2) post.
Proof.
  apply (get_node_region_least_loaded "eu" pool_busy).
  exists node_a. split; [| reflexivity]. vm_compute. left.
Defined.

(** On [pool_busy] the only node of region [eu] is the busiest of the
    pool; it is the answer all the same. *)
Example get_node_region_pool_busy :
  Pool.get_node None (Some "eu"%string) pool_busy = (Ok node_a, pool_busy).
Proof. reflexivity. Qed.

Lemma get_node_NoMatches_names_entity_witness :
  Some "C"%string = Some "C"%string ∧ @None string = None ∧
  NoMatches_entities (λ x, x) (Some "C"%string) None ≠ [].
Proof.
  apply (get_node_NoMatches_names_entity (λ x, x) (Some "C"%string) None pool_ab
           (Some "C"%string) None pool_ab).
  reflexivity.
Defined.

(** ** More on get_player *)
Section get_player_more.
Implicit Types (s : State) (h : Heap) (guild : Z).

Lemma lookup_player_first guild h (pre : list Node) (node : Node) (post : list Node)
    (p : Player) :
  Forall (λ n, players (node_state h n) !! guild = None) pre →
  players (node_state h node) !! guild = Some p →
  lookup_player h guild (pre ++ node :: post) = Some p.
Proof.
  intros Hpre Hp. induction Hpre as [|a pre Ha Hpre IH]; simpl.
  - by rewrite Hp.
  - by rewrite Ha.
Qed.

Lemma lookup_player_none guild h (l : list Node) :
  Forall (λ n, players (node_state h n) !! guild = None) l →
  lookup_player h guild l = None.
Proof. induction 1 as [|a l Ha Hl IH]; simpl; [done |]. by rewrite Ha. Qed.

(** X11.  A player that exists wins over load: when, in registration
    order, [node] is the first node that has a player for the guild,
    [get_player(guild)] returns that player and changes nothing,
    whatever the player counts of the nodes are. *)
Theorem get_player_existing_wins guild s (pre : list Node) (node : Node)
    (post : list Node) (p : Player) :
  PyDict.values (_nodes (self s)) = pre ++ node :: post →
  Forall (λ n, players (node_state (heap s) n) !! guild = None) pre →
  players (node_state (heap s) node) !! guild = Some p →
  Pool.get_player guild None s = (Ok p, s).
Proof.
  intros Hv Hpre Hp. apply get_player_found. rewrite Hv.
  by apply lookup_player_first.
Qed.

(** X12.  When no registered node has a player for the guild, and the
    pool has nodes, [get_player(guild)] creates the player on the node
    that [get_node()] picks, the least loaded one: the new player is
    owned by that node and stored there under the guild, the pool's
    entries and every other node are as before. *)
Theorem get_player_creates_on_least_loaded guild s :
  _nodes (self s) ≠ [] →
  Forall (λ n, players (node_state (heap s) n) !! guild = None)
         (PyDict.values (_nodes (self s))) →
  ∃ node p s1,
    Pool.get_node None None s = (Ok node, s) ∧
    Pool.get_player guild None s = (Ok p, s1) ∧
    player_node p = node_id node ∧
    player_guild p = guild ∧
    players (node_state (heap s1) node) !! guild = Some p ∧
    self s1 = self s ∧
    ∀ m, node_id m ≠ node_id node → node_state (heap s1) m = node_state (heap s) m.
Proof.
  intros Hd Hnone.
  destruct (get_node_some s Hd) as (node & Hin & Hsel).
  rewrite (get_player_miss guild s (lookup_player_none guild _ _ Hnone)), Hsel.
  rewrite Forall_forall in Hnone. pose proof (Hnone node Hin) as Hn.
  unfold on_heap, NodeModel.get_player. rewrite Hn. simpl.
  eexists node, _, _. split; [done |]. split; [reflexivity |]. simpl.
  split; [done |]. split; [done |]. split; [| split; [done |]].
  - unfold node_state at 1. simpl. rewrite lookup_insert_eq. simpl.
    by rewrite lookup_insert_eq.
  - intros m Hm. unfold node_state. simpl. by rewrite lookup_insert_ne.
Qed.

(** X13.  With [node] given, [get_player] asks that node only: the pool
    is not searched.  So when another node [m] already has a player for
    the guild and [n] has none, [get_player(guild, node=n)] still
    creates one on [n]; afterwards both nodes hold a player for the
    guild.  The pool's entries are not read and not changed, and
    [NoAvailableNodes] is never raised, also on an empty pool. *)
Theorem get_player_on_node_skips_pool guild s (n m : Node) (q : Player) :
  node_id m ≠ node_id n →
  players (node_state (heap s) m) !! guild = Some q →
  players (node_state (heap s) n) !! guild = None →
  ∃ p s1,
    Pool.get_player guild (Some n) s = (Ok p, s1) ∧
    player_node p = node_id n ∧
    players (node_state (heap s1) n) !! guild = Some p ∧
    players (node_state (heap s1) m) !! guild = Some q ∧
    self s1 = self s.
Proof.
  intros Hne Hq Hn. unfold Pool.get_player, on_heap, NodeModel.get_player.
  rewrite Hn. simpl. eexists _, _. split; [reflexivity |]. simpl.
  split; [done |]. split; [| split; [| done]].
  - unfold node_state at 1. simpl. rewrite lookup_insert_eq. simpl.
    by rewrite lookup_insert_eq.
  - unfold node_state at 1. simpl. rewrite lookup_insert_ne by done. exact Hq.
Qed.
End get_player_more.

Lemma get_player_existing_wins_witness :
  Pool.get_player 10 None pool_busy
  = (Ok {| player_id := 0; player_node := 0; player_guild := 10 |}, pool_busy).
Proof.
  apply (get_player_existing_wins 10 pool_busy [] node_a [node_b; node_a']
           {| player_id := 0; player_node := 0; player_guild := 10 |}).
  - reflexivity.
  - constructor.
  - reflexivity.
Defined.

Lemma get_player_creates_on_least_loaded_witness :
  ∃ node p s1,
    Pool.get_node None None pool_busy = (Ok node, pool_busy) ∧
    Pool.get_player 42 None pool_busy = (Ok p, s1) ∧
    player_node p = node_id node ∧
    player_guild p = 42 ∧
    players (node_state (heap s1) node) !! 42 = Some p ∧
    self s1 = self pool_busy ∧
    ∀ m, node_id m ≠ node_id node →
         node_state (heap s1) m = node_state (heap pool_busy) m.
Proof.
  apply (get_player_creates_on_least_loaded 42 pool_busy).
  - discriminate.
  - repeat constructor.
Defined.

Lemma get_player_on_node_skips_pool_witness :
  ∃ p s1,
    Pool.get_player 10 (Some node_b) pool_busy = (Ok p, s1) ∧
    player_node p = node_id node_b ∧
    players (node_state (heap s1) node_b) !! 10 = Some p ∧
    players (node_state (heap s1) node_a) !! 10
      = Some {| player_id := 0; player_node := 0; player_guild := 10 |} ∧
    self s1 = self pool_busy.
Proof.
  apply (get_player_on_node_skips_pool 10 pool_busy node_b node_a
           {| player_id := 0; player_node := 0; player_guild := 10 |}).
  - discriminate.
  - reflexivity.
  - reflexivity.
Defined.

(** ** The entries of the pool over time *)
Section entries_over_time.
Context {backend : NodeBackend}.
Implicit Types (s : State) (d : PyDict.t (option string) Node).

Lemma get_app_fresh (k k' : option string) (v : Node) d :
  k ≠ k' → PyDict.get k (d ++ [(k', v)]) = PyDict.get k d.
Proof.
  intros Hne. induction d as [|[k0 v0] d IH]; simpl.
  - by rewrite decide_False.
  - by destruct (decide (k = k0)).
Qed.

Lemma keys_set (k : option string) (v : Node) d :
  PyDict.keys (PyDict.set k v d) =
    if PyDict.contains k d then PyDict.keys d else PyDict.keys d ++ [k].
Proof.
  unfold PyDict.contains.
  induction d as [|[k0 v0] d IH]; [done |].
  cbn [PyDict.set PyDict.get].
  destruct (decide (k = k0)) as [->|Hne]; [done |].
  change (PyDict.keys ((k0, v0) :: PyDict.set k v d))
    with (k0 :: PyDict.keys (PyDict.set k v d)).
  rewrite IH. by destruct (PyDict.get k d).
Qed.

(** X14.  After a [destroy] that returned, the pool is as a new one:
    [len] is 0, [get_node] raises [NoAvailableNodes] whatever it is
    asked, and [add_node] accepts any non-empty identifier, also one in
    use before, and any node without identifier. *)
Theorem destroy_then_as_new (s s1 : State) :
  Pool.destroy s = (Ok tt, s1) →
  Pool.len s1 = (Ok 0%nat, s1) ∧
  (∀ identifier region,
     Pool.get_node identifier region s1 = (Raise NoAvailableNodes, s1)) ∧
  (∀ c I, I ≠ EmptyString →
     ∃ s2, Pool.add_node c (Some I) s1 = (Ok tt, s2) ∧
           _nodes (self s2) = [(Some I, c)]) ∧
  (∀ c, ∃ s2, Pool.add_node c None s1 = (Ok tt, s2) ∧
              _nodes (self s2) = [(Some (Node_identifier c), c)]).
Proof.
  rewrite destroy_unfold.
  destruct (Pool.destroy_each _ s) as [[[]|e] s']; [| discriminate].
  intros [= <-]. split; [done |]. split; [| split].
  - intros identifier region. by apply get_node_empty.
  - intros c I HI. rewrite add_node_unfold. simpl.
    rewrite (str_or_nonempty _ _ HI). eauto.
  - intros c. rewrite add_node_unfold. simpl. rewrite str_or_same. eauto.
Qed.

(** X15.  [add_node] never removes or reorders identifiers.  After a
    successful [add_node] the identifiers are those before, or those
    before followed by one that was not among them; and every
    identifier other than the one written still leads to the same
    node. *)
Theorem add_node_keeps_entries (c : Node) (identifier : option string) (s s' : State) :
  Pool.add_node c identifier s = (Ok tt, s') →
  (PyDict.keys (_nodes (self s')) = PyDict.keys (_nodes (self s)) ∨
   ∃ k, PyDict.contains k (_nodes (self s)) = false ∧
        PyDict.keys (_nodes (self s')) = PyDict.keys (_nodes (self s)) ++ [k]) ∧
  ∀ k, k ≠ Some (str_or (default (Node_identifier c) identifier) (Node_identifier c)) →
       PyDict.get k (_nodes (self s')) = PyDict.get k (_nodes (self s)).
Proof.
  rewrite add_node_unfold. simpl.
  destruct (PyDict.contains (Some (default _ _)) _); [discriminate |].
  intros [= <-]. simpl. split.
  - rewrite keys_set.
    destruct (PyDict.contains _ _) eqn:Hc; [by left |].
    right. eexists. split; [exact Hc | reflexivity].
  - intros k Hk. by apply PyDictFacts.get_set_ne.
Qed.
End entries_over_time.

Lemma destroy_then_as_new_witness :
  Pool.len pool_ab_destroyed = (Ok 0%nat, pool_ab_destroyed) ∧
  (∀ identifier region,
     Pool.get_node identifier region pool_ab_destroyed
       = (Raise NoAvailableNodes, pool_ab_destroyed)) ∧
  (∀ c I, I ≠ EmptyString →
     ∃ s2, Pool.add_node c (Some I) pool_ab_destroyed = (Ok tt, s2) ∧
           _nodes (self s2) = [(Some I, c)]) ∧
  (∀ c, ∃ s2, Pool.add_node c None pool_ab_destroyed = (Ok tt, s2) ∧
              _nodes (self s2) = [(Some (Node_identifier c), c)]).
Proof.
  apply (destroy_then_as_new (backend := reliable) pool_ab pool_ab_destroyed).
  vm_compute. reflexivity.
Defined.

Lemma add_node_keeps_entries_witness :
  (PyDict.keys (_nodes (self pool_ab)) = PyDict.keys (_nodes (self pool_a)) ∨
   ∃ k, PyDict.contains k (_nodes (self pool_a)) = false ∧
        PyDict.keys (_nodes (self pool_ab)) = PyDict.keys (_nodes (self pool_a)) ++ [k]) ∧
  ∀ k, k ≠ Some (str_or (default (Node_identifier node_b) (Some "B"%string))
                   (Node_identifier node_b)) →
       PyDict.get k (_nodes (self pool_ab)) = PyDict.get k (_nodes (self pool_a)).
Proof.
  apply (add_node_keeps_entries node_b (Some "B"%string) pool_a pool_ab).
  reflexivity.
Defined.

(** ** The default pool *)
Section default_pool.
Context {backend : NodeBackend}.

(** X17.  Right after import [DefaultNodePool] is empty: [get_node] of
    the module raises [NoAvailableNodes], and [create_node] of the
    module raises [NameError] and leaves it empty.  After [add_node(c)]
    of the module, [c] is in [DefaultNodePool] under its own
    identifier, where [get_node] with that identifier and [get_node()]
    of the module both find it. *)
Theorem default_pool_first_node (h : Heap) (c : Node) (kw : NodeArgs)
    (region : option string) :
  get_node None region (import h) = (Raise NoAvailableNodes, import h) ∧
  create_node kw (import h) = (Raise (NameError "Node"), import h) ∧
  ∃ g,
    add_node c None (import h) = (Ok tt, g) ∧
    _nodes (DefaultNodePool g) = [(Some (Node_identifier c), c)] ∧
    get_node (Some (Node_identifier c)) region g = (Ok c, g) ∧
    get_node None None g = (Ok c, g).
Proof.
  split; [reflexivity |]. split.
  - unfold create_node, on_default. rewrite kwargs_eta, create_node_unfold.
    unfold default_identifier. simpl. by destruct (kw_identifier kw).
  - unfold add_node, bind, on_default, ret. rewrite add_node_unfold. simpl.
    rewrite str_or_same.
    eexists. split; [reflexivity |]. simpl. split; [done |]. split.
    + unfold get_node, on_default. rewrite get_node_by_identifier by done.
      simpl. by rewrite decide_True.
    + reflexivity.
Qed.
End default_pool.

(** ** Walking the pool *)
Section walking.
Context {backend : NodeBackend}.

(** X18.  [nodes] lists the nodes in the order of registration and
    [len] counts them: after an [add_node] that wrote under a key not
    registered before, the list is the one before followed by the new
    node, and [len] is one more. *)
Theorem add_node_appends_to_nodes (c : Node) (identifier : option string)
    (s s' : State) :
  PyDict.contains
    (Some (str_or (default (Node_identifier c) identifier) (Node_identifier c)))
    (_nodes (self s)) = false →
  Pool.add_node c identifier s = (Ok tt, s') →
  ∃ l, Pool.nodes s = (Ok l, s) ∧
       Pool.nodes s' = (Ok (l ++ [c]), s') ∧
       Pool.len s = (Ok (length l), s) ∧
       Pool.len s' = (Ok (S (length l)), s').
Proof.
  intros Hc. rewrite add_node_unfold. simpl.
  destruct (PyDict.contains (Some (default _ _)) _); [discriminate |].
  intros [= <-].
  apply PyDictFacts.contains_false in Hc.
  exists (PyDict.values (_nodes (self s))).
  unfold Pool.nodes, Pool.walk_nodes, Pool.len, gets. simpl.
  rewrite (PyDictFacts.set_fresh _ _ _ Hc).
  unfold PyDict.values. rewrite fmap_app, !length_app, !length_fmap. simpl.
  repeat split. f_equal. f_equal. lia.
Qed.

(** X19.  [walk_nodes] goes by entries, not by nodes: a node registered
    under two identifiers is listed twice, and [destroy] calls its
    [destroy()] twice, once for each entry. *)
Theorem node_registered_twice (c : Node) (I J : string) (s : State) :
  I ≠ EmptyString → J ≠ EmptyString → I ≠ J →
  PyDict.contains (Some I) (_nodes (self s)) = false →
  PyDict.contains (Some J) (_nodes (self s)) = false →
  Forall (λ n, destroy_fault n = None) (PyDict.values (_nodes (self s))) →
  destroy_fault c = None →
  ∃ s1 s2 s3,
    Pool.add_node c (Some I) s = (Ok tt, s1) ∧
    Pool.add_node c (Some J) s1 = (Ok tt, s2) ∧
    Pool.walk_nodes s2 = (Ok (PyDict.values (_nodes (self s)) ++ [c; c]), s2) ∧
    Pool.destroy s2 = (Ok tt, s3) ∧
    trace (heap s3) =
      trace (heap s) ++ destroy_calls (PyDict.values (_nodes (self s)))
        ++ [EvDestroy (node_id c); EvDestroy (node_id c)].
Proof.
  intros HI HJ HIJ HfI HfJ Hok Hc.
  set (d2 := (_nodes (self s) ++ [(Some I, c)]) ++ [(Some J, c)]).
  assert (Hv : PyDict.values d2 = PyDict.values (_nodes (self s)) ++ [c; c]).
  { unfold PyDict.values, d2. rewrite !fmap_app, <- app_assoc. done. }
  destruct (destroy_each_ok (PyDict.values d2)
              {| self := {| _nodes := d2 |}; heap := heap s |})
    as (h' & Hrun & Htr & _).
  { rewrite Hv. apply Forall_app. split; [done |]. by repeat constructor. }
  simpl in Hrun, Htr.
  exists {| self := {| _nodes := _nodes (self s) ++ [(Some I, c)] |}; heap := heap s |},
         {| self := {| _nodes := d2 |}; heap := heap s |},
         {| self := {| _nodes := [] |}; heap := h' |}.
  apply PyDictFacts.contains_false in HfJ.
  assert (HfJ' : PyDict.get (Some J) (_nodes (self s) ++ [(Some I, c)]) = None).
  { rewrite get_app_fresh; [done | congruence]. }
  split; [| split; [| split; [| split]]].
  - rewrite add_node_unfold. simpl. rewrite HfI, (str_or_nonempty _ _ HI).
    apply PyDictFacts.contains_false in HfI.
    by rewrite (PyDictFacts.set_fresh _ _ _ HfI).
  - rewrite add_node_unfold. simpl. rewrite (str_or_nonempty _ _ HJ).
    unfold PyDict.contains. rewrite HfJ'.
    by rewrite (PyDictFacts.set_fresh _ _ _ HfJ').
  - unfold Pool.walk_nodes, gets. simpl. by rewrite Hv.
  - rewrite destroy_unfold. simpl. by rewrite Hrun.
  - simpl. rewrite Htr, Hv. unfold destroy_calls. by rewrite fmap_app.
Qed.
End walking.

Lemma add_node_appends_to_nodes_witness :
  ∃ l, Pool.nodes pool_a = (Ok l, pool_a) ∧
       Pool.nodes pool_ab = (Ok (l ++ [node_b]), pool_ab) ∧
       Pool.len pool_a = (Ok (length l), pool_a) ∧
       Pool.len pool_ab = (Ok (S (length l)), pool_ab).
Proof.
  apply (add_node_appends_to_nodes node_b None pool_a pool_ab); reflexivity.
Defined.

Lemma node_registered_twice_witness :
  ∃ s1 s2 s3,
    Pool.add_node node_b (Some "B"%string) pool_a = (Ok tt, s1) ∧
    Pool.add_node node_b (Some "C"%string) s1 = (Ok tt, s2) ∧
    Pool.walk_nodes s2
      = (Ok (PyDict.values (_nodes (self pool_a)) ++ [node_b; node_b]), s2) ∧
    Pool.destroy (backend := reliable) s2 = (Ok tt, s3) ∧
    trace (heap s3) =
      trace (heap pool_a) ++ destroy_calls (PyDict.values (_nodes (self pool_a)))
        ++ [EvDestroy (node_id node_b); EvDestroy (node_id node_b)].
Proof.
  apply (node_registered_twice (backend := reliable) node_b "B" "C" pool_a);
    try discriminate; try reflexivity.
  repeat constructor.
Defined.

(** ** When add_node raises *)

(** X20.  [add_node] raises exactly when the identifier it tests (the
    one given, else the node's own) is registered.  What it raises is
    [NodeConflict] with that identifier, and nothing has changed then;
    when it returns, only the pool's entries have changed, not the
    heap: the node is neither started nor otherwise touched. *)
Theorem add_node_raises (c : Node) (identifier : option string) (s : State) :
  (PyDict.contains (Some (default (Node_identifier c) identifier)) (_nodes (self s)) = true →
   Pool.add_node c identifier s
     = (Raise (NodeConflict (Some (default (Node_identifier c) identifier))), s)) ∧
  (∀ e s', Pool.add_node c identifier s = (Raise e, s') →
           PyDict.contains (Some (default (Node_identifier c) identifier))
             (_nodes (self s)) = true ∧
           e = NodeConflict (Some (default (Node_identifier c) identifier)) ∧ s' = s) ∧
  (∀ s', Pool.add_node c identifier s = (Ok tt, s') → heap s' = heap s).
Proof.
  rewrite add_node_unfold. simpl.
  destruct (PyDict.contains _ _); (split; [| split]).
  - done.
  - intros e s' [= <- <-]. done.
  - discriminate.
  - discriminate.
  - discriminate.
  - intros s' [= <-]. done.
Qed.

Lemma add_node_raises_witness :
  Pool.add_node node_a' None pool_ab
    = (Raise (NodeConflict (Some (default (Node_identifier node_a') None))), pool_ab).
Proof.
  apply (proj1 (add_node_raises node_a' None pool_ab)). reflexivity.
Defined.
